(** * Resume improver: a shallow embedding of [model.py], [utils.py] and
    [resumeimprover.py], and the properties of its configuration holder,
    document extractor, turn-taking pipeline and top-level workflow.

    A Python string is modelled as the Rocq string of its UTF-8 encoding:
    white space is that of [str.isspace] on all of Unicode, [len] counts
    code points, letter case is modelled on the ASCII range.  Paths are
    those of a POSIX host.  Objects that the program mutates are
    records threaded through a small state/exception/output monad, so that
    the state reached when an exception escapes is part of the result. *)

From stdpp Require Import gmap strings list fin_maps pretty.
From Stdlib Require Import Ascii String.

Local Open Scope string_scope.
Local Open Scope list_scope.
Local Open Scope nat_scope.

(** ** Exceptions, outcomes and observable events *)

(** The exception classes the program raises or catches.  [OSError] is an
    operating system error of any subclass but [FileNotFoundError] (name too
    long, permission denied, ...); [LibraryError] stands for any other
    subclass of [Exception] raised by an external library (PyPDF2,
    pdf2image, pdfkit, the inference backend). *)
Inductive exn : Type :=
  | FileNotFoundError (msg : string)
  | OSError (msg : string)
  | EOFError (msg : string)
  | ValueError (msg : string)
  | TypeError (msg : string)
  | RuntimeError (msg : string)
  | AttributeError (msg : string)
  | IndexError (msg : string)
  | LibraryError (msg : string).

(** [str(e)] of an exception. *)
Definition exn_msg (e : exn) : string :=
  match e with
  | FileNotFoundError m | OSError m | EOFError m | ValueError m | TypeError m
  | RuntimeError m | AttributeError m | IndexError m | LibraryError m => m
  end.

(** A rasterized page: dimensions and raw pixel data. *)
Record Image : Type := { width : nat; height : nat; pixels : list N }.

(** What a run does to the outside world, in order. *)
Inductive event : Type :=
  | Print (line : string)                       (* print(...) *)
  | Inference (agent : string)                  (* one request to the model backend *)
  | Mkdir (dir : string)                        (* Path.mkdir(parents=True, exist_ok=True) *)
  | SaveImage (path : string) (img : Image)     (* img.save(path, 'PNG') *)
  | HtmlToPdf (html : string) (path : string).  (* pdfkit.from_string(html, path) *)

(** The result of running a piece of code: a value, an escaping exception,
    or no result at all because the code never returns. *)
Inductive outcome (A : Type) : Type :=
  | Return (a : A)
  | Raise (e : exn)
  | Hang.
Arguments Return {A} a.
Arguments Raise {A} e.
Arguments Hang {A}.

(** State, exceptions and output: a computation over a mutable object of
    type [St] yields an outcome, the object as the computation left it, and
    the events it produced. *)
Definition M (St A : Type) : Type := St → outcome A * St * list event.

Definition ret {St A} (a : A) : M St A := λ s, (Return a, s, []).

Definition bind {St A B} (m : M St A) (k : A → M St B) : M St B :=
  λ s, match m s with
       | (Return a, s1, out1) =>
           let '(r, s2, out2) := k a s1 in (r, s2, out1 ++ out2)
       | (Raise e, s1, out1) => (Raise e, s1, out1)
       | (Hang, s1, out1) => (Hang, s1, out1)
       end.

Definition raise {St A} (e : exn) : M St A := λ s, (Raise e, s, []).
Definition hang {St A} : M St A := λ s, (Hang, s, []).
Definition get {St} : M St St := λ s, (Return s, s, []).
Definition put {St} (s : St) : M St unit := λ _, (Return tt, s, []).
Definition emit {St} (e : event) : M St unit := λ s, (Return tt, s, [e]).
Definition print {St} (line : string) : M St unit := emit (Print line).

(** [try: body / except <class> as e: handler e], where [catches] decides
    whether the exception is an instance of the class. *)
Definition try_except {St A} (body : M St A) (catches : exn → bool)
    (handler : exn → M St A) : M St A :=
  λ s, match body s with
       | (Raise e, s1, out1) =>
           if catches e
           then let '(r, s2, out2) := handler e s1 in (r, s2, out1 ++ out2)
           else (Raise e, s1, out1)
       | r => r
       end.

(** Every exception of the model is a subclass of [Exception]. *)
Definition any_Exception (e : exn) : bool := true.

(** Run a method of a component object stored in a field of a larger one. *)
Definition zoom {St Sub A} (proj : St → Sub) (upd : Sub → St → St)
    (m : M Sub A) : M St A :=
  λ s, let '(r, sub, out) := m (proj s) in (r, upd sub s, out).

Notation "'do' x <- m ; k" := (bind m (λ x, k))
  (at level 10, x name, m at level 100, k at level 200).
Notation "'exec' m ; k" := (bind m (λ _, k))
  (at level 10, m at level 100, k at level 200).

(** ** model.py *)

Module Model.

(** [@dataclass class ModelConfig]. *)
Record ModelConfig : Type := {
  api_key : string;
  endpoint : string;
  api_version : string;
  deployment_name : string;
}.

(** [ModelConfig.__post_init__]: the first empty field, in declaration
    order, decides the error. *)
Definition post_init (c : ModelConfig) : option exn :=
  if bool_decide (api_key c = "") then
    Some (ValueError "AZURE_OPENAI_API_KEY is required")
  else if bool_decide (endpoint c = "") then
    Some (ValueError "AZURE_OPENAI_ENDPOINT is required")
  else if bool_decide (api_version c = "") then
    Some (ValueError "AZURE_OPENAI_API_VERSION is required")
  else if bool_decide (deployment_name c = "") then
    Some (ValueError "AZURE_OPENAI_DEPLOYMENT_NAME is required")
  else None.

(** [ModelConfig(api_key, endpoint, api_version="2025-01-01",
    deployment_name="gpt-4o")]: the generated [__init__] stores the
    fields, then runs [__post_init__]. *)
Definition new_ModelConfig (key ep : string) (ver dep : option string)
    : exn + ModelConfig :=
  let c := {| api_key := key; endpoint := ep;
              api_version := default "2025-01-01" ver;
              deployment_name := default "gpt-4o" dep |} in
  match post_init c with
  | Some e => inl e
  | None => inr c
  end.

(** The handle built by [AzureOpenAIChatCompletionClient(...)].  [handle]
    is the identity of the Python object: two handles are the same object
    exactly when their [handle] numbers agree. *)
Record Client : Type := {
  handle : nat;
  azure_deployment : string;
  model : string;
  client_api_key : string;
  azure_endpoint : string;
  client_api_version : string;
}.

(** [class ModelManager]; [constructed] counts the client objects built
    so far and supplies the identity of the next one. *)
Record ModelManager : Type := {
  _config : ModelConfig;
  _client : option Client;
  constructed : nat;
}.

(** [ModelManager._load_config_from_env], over [os.environ] as it is once
    [load_dotenv()] has run. *)
Definition _load_config_from_env (environ : gmap string string)
    : exn + ModelConfig :=
  let key := default "" (environ !! "AZURE_OPENAI_API_KEY") in
  let ep := default "" (environ !! "AZURE_OPENAI_ENDPOINT") in
  let ver := default "2025-01-01" (environ !! "AZURE_OPENAI_API_VERSION") in
  let dep := default "gpt-4o" (environ !! "AZURE_OPENAI_DEPLOYMENT_NAME") in
  if bool_decide (key = "") || bool_decide (ep = "") then
    inl (ValueError ("Please set Azure Open AI Endpoint Details in your environment variables. "
                     +:+ "Required: AZURE_OPENAI_API_KEY, AZURE_OPENAI_ENDPOINT"))
  else new_ModelConfig key ep (Some ver) (Some dep).

(** [ModelManager.__init__]. *)
Definition new_ModelManager (config : option ModelConfig)
    (environ : gmap string string) : exn + ModelManager :=
  match config with
  | Some c => inr {| _config := c; _client := None; constructed := 0 |}
  | None =>
      match _load_config_from_env environ with
      | inl e => inl e
      | inr c => inr {| _config := c; _client := None; constructed := 0 |}
      end
  end.

(** The [config] property. *)
Definition config : M ModelManager ModelConfig :=
  do m <- get ; ret (_config m).

(** [ModelManager._create_client]. *)
Definition _create_client : M ModelManager Client :=
  do m <- get ;
  let c := {| handle := constructed m;
              azure_deployment := deployment_name (_config m);
              model := deployment_name (_config m);
              client_api_key := api_key (_config m);
              azure_endpoint := endpoint (_config m);
              client_api_version := api_version (_config m) |} in
  exec put {| _config := _config m; _client := _client m;
         constructed := S (constructed m) |} ;
  ret c.

(** The [client] property. *)
Definition client : M ModelManager Client :=
  do m <- get ;
  match _client m with
  | None =>
      do c <- _create_client ;
      do m1 <- get ;
      exec put {| _config := _config m1; _client := Some c;
             constructed := constructed m1 |} ;
      ret c
  | Some c => ret c
  end.

(** The four keyword parameters of [ModelConfig.__init__]. *)
Definition field_names : list string :=
  ["api_key"; "endpoint"; "api_version"; "deployment_name"].

(** A Python dict of strings: its entries in insertion order, every key
    once. *)
Definition dict : Type := list (string * string).

(** [d.get(k)]. *)
Fixpoint dict_get (k : string) (d : dict) : option string :=
  match d with
  | [] => None
  | (k', v) :: d' => if bool_decide (k' = k) then Some v else dict_get k d'
  end.

(** [d[k] = v]: an entry that is there keeps its place, a new one goes to
    the end. *)
Fixpoint dict_set (k v : string) (d : dict) : dict :=
  match d with
  | [] => [(k, v)]
  | (k', v') :: d' =>
      if bool_decide (k' = k) then (k, v) :: d' else (k', v') :: dict_set k v d'
  end.

(** [d.update(other)]. *)
Definition dict_update (d other : dict) : dict :=
  foldl (λ d kv, dict_set kv.1 kv.2 d) d other.

(** The first key, in the order of the dict, that is no parameter of
    [ModelConfig.__init__]. *)
Definition unexpected (d : dict) : option string :=
  head (filter (λ k, k ∉ field_names) d.*1).

(** [ModelConfig] called with the entries of [config_dict] as keyword
    arguments: the first key that is not a parameter is a [TypeError] that
    names it; a parameter without default that is absent is one too. *)
Definition new_ModelConfig_kwargs (config_dict : dict) : exn + ModelConfig :=
  match unexpected config_dict with
  | Some k =>
      inl (TypeError ("ModelConfig.__init__() got an unexpected keyword argument '"
                      +:+ k +:+ "'"))
  | None =>
      match dict_get "api_key" config_dict, dict_get "endpoint" config_dict with
      | Some key, Some ep =>
          new_ModelConfig key ep (dict_get "api_version" config_dict)
                          (dict_get "deployment_name" config_dict)
      | None, Some _ =>
          inl (TypeError ("ModelConfig.__init__() missing 1 required positional argument: "
                          +:+ "'api_key'"))
      | Some _, None =>
          inl (TypeError ("ModelConfig.__init__() missing 1 required positional argument: "
                          +:+ "'endpoint'"))
      | None, None =>
          inl (TypeError ("ModelConfig.__init__() missing 2 required positional arguments: "
                          +:+ "'api_key' and 'endpoint'"))
      end
  end.

(** The dictionary literal at the head of [update_config]. *)
Definition config_dict_of (c : ModelConfig) : dict :=
  [("api_key", api_key c); ("endpoint", endpoint c);
   ("api_version", api_version c); ("deployment_name", deployment_name c)].

(** [ModelManager.update_config], [kwargs] being the keyword arguments of
    the call in the order in which they are written. *)
Definition update_config_kwargs (kwargs : dict) : M ModelManager unit :=
  do m <- get ;
  let config_dict := dict_update (config_dict_of (_config m)) kwargs in
  match new_ModelConfig_kwargs config_dict with
  | inl e => raise e
  | inr c =>
      exec put {| _config := c; _client := _client m; constructed := constructed m |} ;
      do m1 <- get ;
      put {| _config := _config m1; _client := None; constructed := constructed m1 |}
  end.

(** [update_config] with its keyword arguments as a map.  The order of the
    keywords decides nothing but which keyword the [TypeError] names when
    several of them are no fields; they are taken in the order of the
    map. *)
Definition update_config (kwargs : gmap string string) : M ModelManager unit :=
  update_config_kwargs (map_to_list kwargs).

End Model.

(** ** Python string operations *)

Module PyStr.

(** The line break character. *)
Definition nl : string := String (ascii_of_nat 10) "".

(** The UTF-8 encoding of a code point. *)
Definition utf8 (c : N) : string :=
  let byte (n : N) := ascii_of_N n in
  (if c <? 128 then String (byte c) ""
   else if c <? 2048 then
     String (byte (192 + c / 64)) (String (byte (128 + c mod 64)) "")
   else if c <? 65536 then
     String (byte (224 + c / 4096))
       (String (byte (128 + (c / 64) mod 64)) (String (byte (128 + c mod 64)) ""))
   else
     String (byte (240 + c / 262144))
       (String (byte (128 + (c / 4096) mod 64))
          (String (byte (128 + (c / 64) mod 64)) (String (byte (128 + c mod 64)) ""))))%N.

(** The code points for which [str.isspace] holds: tab to carriage return,
    the separators U+001C to U+001F, space, next line, no-break space, ogham
    space mark, en quad to hair space, line and paragraph separator, narrow
    no-break space, medium mathematical space, ideographic space. *)
Definition whitespace_code_points : list N :=
  [9; 10; 11; 12; 13; 28; 29; 30; 31; 32; 133; 160; 5760;
   8192; 8193; 8194; 8195; 8196; 8197; 8198; 8199; 8200; 8201; 8202;
   8232; 8233; 8239; 8287; 12288]%N.

(** [c.isspace()] for one character [c], given by its encoding. *)
Definition isspace (c : string) : bool :=
  bool_decide (c ∈ map utf8 whitespace_code_points).

(** [s.lstrip()]: white space is at most three bytes long. *)
Fixpoint lstrip (s : string) : string :=
  match s with
  | String a s1 =>
      if isspace (String a "") then lstrip s1
      else match s1 with
           | String b s2 =>
               if isspace (String a (String b "")) then lstrip s2
               else match s2 with
                    | String c s3 =>
                        if isspace (String a (String b (String c ""))) then lstrip s3
                        else s
                    | EmptyString => s
                    end
           | EmptyString => s
           end
  | EmptyString => EmptyString
  end.

(** [s.rstrip()]: what is left of the tail, with the character before it,
    is dropped when it is one white space character. *)
Fixpoint rstrip (s : string) : string :=
  match s with
  | String c s' =>
      let r := String c (rstrip s') in
      if isspace r then EmptyString else r
  | EmptyString => EmptyString
  end.

(** [s.strip()]. *)
Definition strip (s : string) : string := rstrip (lstrip s).

(** [len(s)]: the number of code points, which is the number of bytes that
    do not continue a character. *)
Definition continues (c : ascii) : bool :=
  let n := nat_of_ascii c in Nat.leb 128 n && Nat.ltb n 192.

Fixpoint len (s : string) : nat :=
  match s with
  | String c s' => if continues c then len s' else S (len s')
  | EmptyString => 0
  end.

(** [c.lower()] on the ASCII range; other characters are left as they
    are.  The program compares lowered strings with ".pdf" only, and no
    character outside ASCII is lowered to ".", "p", "d" or "f". *)
Definition lower_char (c : ascii) : ascii :=
  let n := nat_of_ascii c in
  if Nat.leb 65 n && Nat.leb n 90 then ascii_of_nat (n + 32) else c.

(** [s.lower()]. *)
Fixpoint lower (s : string) : string :=
  match s with
  | String c s' => String (lower_char c) (lower s')
  | EmptyString => EmptyString
  end.

(** [s.startswith(p)]. *)
Fixpoint startswith (s p : string) : bool :=
  match p, s with
  | EmptyString, _ => true
  | String a p', String b s' => bool_decide (a = b) && startswith s' p'
  | String _ _, EmptyString => false
  end.

(** [s.endswith(p)]: the last [len(p)] characters of [s] are [p]. *)
Definition endswith (s p : string) : bool :=
  Nat.leb (String.length p) (String.length s)
  && bool_decide (substring (String.length s - String.length p)
                            (String.length p) s = p).

(** [sub in s]. *)
Fixpoint contains (sub s : string) : bool :=
  startswith s sub
  || match s with
     | String _ s' => contains sub s'
     | EmptyString => false
     end.

(** [s.rfind(".")], with [None] for Python's -1. *)
Fixpoint rfind_dot (s : string) : option nat :=
  match s with
  | String c s' =>
      match rfind_dot s' with
      | Some i => Some (S i)
      | None => if bool_decide (c = "."%char) then Some 0 else None
      end
  | EmptyString => None
  end.

(** [s.split(sep)] for a one-character separator. *)
Fixpoint split (sep : ascii) (s : string) : list string :=
  match s with
  | String c s' =>
      if bool_decide (c = sep) then EmptyString :: split sep s'
      else match split sep s' with
           | w :: ws => String c w :: ws
           | [] => [String c EmptyString]
           end
  | EmptyString => [EmptyString]
  end.

(** [sep.join(l)]. *)
Definition join (sep : string) (l : list string) : string :=
  String.concat sep l.

(** [s * n]. *)
Fixpoint repeat (s : string) (n : nat) : string :=
  match n with
  | O => EmptyString
  | S n' => s +:+ repeat s n'
  end.

(** [str(n)], as an f-string renders a number. *)
Definition of_nat (n : nat) : string := pretty n.

(** The format spec [{i:02d}] for a non-negative integer: decimal digits,
    padded with zeros on the left to a width of at least two. *)
Definition format_02d (i : nat) : string :=
  let digits := pretty i in
  repeat "0" (2 - String.length digits) +:+ digits.

(** Truthiness of a string. *)
Definition truthy (s : string) : bool := negb (bool_decide (s = "")).

End PyStr.

(** ** pathlib on a POSIX system

    [Path] is [PosixPath] here.  On Windows, where [os.name] is "nt", paths
    are parsed and printed in another way; what is stated about paths, and
    about the search for Poppler in particular, is stated for a POSIX
    host. *)

Module Pathlib.

(** A [PurePosixPath]: the root ("", "/" or "//") and the components. *)
Record Path : Type := { root : string; parts : list string }.

Fixpoint leading_slashes (s : string) : nat :=
  match s with
  | String "/" s' => S (leading_slashes s')
  | _ => 0
  end.

(** [Path(s)]: exactly two leading slashes are kept, any other number
    of them is one root; empty and "." components are dropped. *)
Definition of_string (s : string) : Path :=
  let n := leading_slashes s in
  {| root := if Nat.eqb n 0 then "" else if Nat.eqb n 2 then "//" else "/";
     parts := filter (λ x, x ≠ "" ∧ x ≠ ".") (PyStr.split "/" s) |}.

(** [str(p)]. *)
Definition str (p : Path) : string :=
  match root p, parts p with
  | EmptyString, [] => "."
  | r, ps => r +:+ PyStr.join "/" ps
  end.

(** [p.name]. *)
Definition name (p : Path) : string := default "" (last (parts p)).

(** [p.suffix]: from the last dot of the name, unless that dot is the
    first or the last character. *)
Definition suffix (p : Path) : string :=
  let n := name p in
  match PyStr.rfind_dot n with
  | Some i =>
      if Nat.ltb 0 i && Nat.ltb i (String.length n - 1)
      then substring i (String.length n - i) n
      else ""
  | None => ""
  end.

(** [p.stem]. *)
Definition stem (p : Path) : string :=
  let n := name p in
  match PyStr.rfind_dot n with
  | Some i =>
      if Nat.ltb 0 i && Nat.ltb i (String.length n - 1)
      then substring 0 i n
      else n
  | None => n
  end.

(** [p.parent]. *)
Definition parent (p : Path) : Path :=
  {| root := root p; parts := removelast (parts p) |}.

(** [p / other]: an absolute right operand replaces the left one. *)
Definition div (p : Path) (other : string) : Path :=
  let q := of_string other in
  if bool_decide (root q = "") then
    {| root := root p; parts := parts p ++ parts q |}
  else q.

End Pathlib.

(** ** The world outside the program *)

(** One message of a conversation.  A [MultiModalMessage] keeps its text in
    [content] and its picture in [attachment]. *)
Record Message : Type := {
  source : string;
  content : string;
  attachment : option Image;
}.

(** An [AssistantAgent]: display name, model client and system prompt. *)
Record Agent : Type := {
  agent_name : string;
  model_client : Model.Client;
  system_message : string;
}.

(** Everything the program reads from its surroundings or delegates to an
    external library. *)
Record Env : Type := {
  argv : list string;                    (* sys.argv *)
  stdin_line : option string;            (* the line input() reads, without its line break;
                                            None at the end of the input *)
  os_name : string;                      (* os.name *)
  venv_bin : option string;              (* Path(sys.executable).parent inside a virtual environment *)
  module_dir : string;                   (* Path(__file__).parent of utils.py *)
  path_exists : string → bool;           (* os.path.exists: os.stat succeeds *)
  stat_error : string → option string;   (* for a path that os.path.exists denies: the message
                                            of the OSError of os.stat, when it is none of
                                            those that pathlib takes for absence *)
  read_text : string → exn + string;     (* open(path, 'r', encoding='utf-8').read() *)
  pdf_pages : string → exn + list (exn + string);
                                         (* open(path, 'rb'), PyPDF2.PdfReader(file).pages,
                                            page.extract_text() of each page *)
  convert_from_path : string → nat → option string → exn + list Image;
                                         (* pdf2image.convert_from_path(path, dpi, 'PNG', poppler_path) *)
  mkdir_error : string → option exn;     (* failure of Path.mkdir, if any *)
  save_error : string → option exn;      (* failure of Image.save, if any *)
  model_reply : Agent → list Message → exn + string;
                                         (* the inference backend: an agent's answer to a conversation *)
  from_string_error : string → string → option exn;
                                         (* failure of pdfkit.from_string, if any *)
}.

(** [Path(p).exists()].  [os.stat] succeeds, or it fails with an error that
    pathlib takes for absence (no such file, not a directory, bad descriptor,
    a loop of symbolic links), or it fails with another [OSError] (the name is too
    long, a directory above cannot be searched), which escapes.  Where
    pathlib suppresses every error of the operating system, as from
    Python 3.14 on, [stat_error] is [None] everywhere. *)
Definition Path_exists {St} (env : Env) (p : string) : M St bool :=
  if path_exists env p then ret true
  else match stat_error env p with
       | Some msg => raise (OSError msg)
       | None => ret false
       end.

(** ** utils.py *)

Module Utils.
Import PyStr Pathlib.

(** *** PromptManager *)

Record PromptManager : Type := {
  prompts_dir : Path;
  _prompt_cache : gmap string string;
}.

Definition new_PromptManager (env : Env) (prompts_directory : option string)
    : PromptManager :=
  {| prompts_dir :=
       match prompts_directory with
       | None => div (of_string (module_dir env)) "prompts"
       | Some d => of_string d
       end;
     _prompt_cache := ∅ |}.

Definition load_prompt (env : Env) (filename : string) : M PromptManager string :=
  do self <- get;
  match _prompt_cache self !! filename with
  | Some cached => ret cached
  | None =>
      let prompt_path := div (prompts_dir self) (filename +:+ ".txt") in
      match read_text env (str prompt_path) with
      | inr text =>
          let content := strip text in
          exec put {| prompts_dir := prompts_dir self;
                     _prompt_cache := <[filename := content]> (_prompt_cache self) |};
          ret content
      | inl (FileNotFoundError _) =>
          raise (FileNotFoundError ("Prompt file not found: " +:+ str prompt_path))
      | inl e => raise e
      end
  end.

(** *** PDFProcessor *)

Record PDFProcessor : Type := {
  default_dpi : nat;
  _poppler_path : option string;
}.

Definition new_PDFProcessor (dpi : nat) : PDFProcessor :=
  {| default_dpi := dpi; _poppler_path := None |}.

(** The loop [for page in pdf_reader.pages: text_content +=
    page.extract_text() + "\n"], stopping at the first page that fails. *)
Fixpoint concat_pages {St} (text_content : string) (pages : list (exn + string))
    : M St string :=
  match pages with
  | [] => ret text_content
  | inr t :: rest => concat_pages (text_content +:+ t +:+ nl) rest
  | inl e :: _ => raise e
  end.

Definition extract_text (env : Env) (pdf_path : string) : M PDFProcessor string :=
  let pdf_path := of_string pdf_path in
  do found <- Path_exists env (str pdf_path);
  if negb found then
    raise (FileNotFoundError ("PDF file not found: " +:+ str pdf_path))
  else
    do text_content <-
      try_except
        (match pdf_pages env (str pdf_path) with
         | inl e => raise e
         | inr pages => concat_pages "" pages
         end)
        any_Exception
        (λ e, exec print ("Warning: Could not extract text from PDF: " +:+ exn_msg e);
              ret "");
    ret (strip text_content).

(** The directories searched for the Poppler binaries, as they are on a
    POSIX host. *)
Definition possible_paths (env : Env) : list string :=
  ["/usr/bin"; "/usr/local/bin"; "/opt/homebrew/bin";
   "C:\Program Files\poppler\bin"; "C:\Program Files (x86)\poppler\bin"]
  ++ match venv_bin env with
     | Some venv_path =>
         [str (div (div (of_string venv_path) "poppler") "bin");
          str (div (div (parent (of_string venv_path)) "poppler") "bin")]
     | None => []
     end.

(** The loop [for path in possible_paths] of [_find_poppler_path]: the
    first directory that holds the binary ends it; so does an existence test
    that raises. *)
Fixpoint find_pdftoppm {St} (env : Env) (paths : list string) : M St (option string) :=
  match paths with
  | [] => ret None
  | path :: rest =>
      let pdftoppm_name :=
        if bool_decide (os_name env = "nt") then "pdftoppm.exe" else "pdftoppm" in
      let pdftoppm_path := div (of_string path) pdftoppm_name in
      do found <- Path_exists env (str pdftoppm_path);
      if found then ret (Some path) else find_pdftoppm env rest
  end.

Definition _find_poppler_path (env : Env) : M PDFProcessor (option string) :=
  do hit <- find_pdftoppm env (possible_paths env);
  match hit with
  | Some path => ret (Some path)
  | None =>
      exec print "Warning: Poppler not found. PDF to image conversion may not work.";
      ret None
  end.

Definition convert_to_images (env : Env) (pdf_path : string) (dpi : option nat)
    : M PDFProcessor (list Image) :=
  let pdf_path := of_string pdf_path in
  do found <- Path_exists env (str pdf_path);
  if negb found then
    raise (FileNotFoundError ("PDF file not found: " +:+ str pdf_path))
  else
    do self <- get;
    let dpi := match dpi with
               | Some (S d) => S d
               | _ => default_dpi self
               end in
    try_except
      (do self <- get;
       exec match _poppler_path self with
           | None =>
               do found <- _find_poppler_path env;
               put {| default_dpi := default_dpi self; _poppler_path := found |}
           | Some _ => ret tt
           end;
       do self <- get;
       match convert_from_path env (str pdf_path) dpi (_poppler_path self) with
       | inl e => raise e
       | inr images => ret images
       end)
      any_Exception
      (λ e, exec print ("Error converting PDF to images: " +:+ exn_msg e);
            ret []).

(** *** ImageProcessor *)

(** The loop [for i, img in enumerate(images, 1)] of [save_images], from
    index [i] on; [saved_paths] is extended in place. *)
Fixpoint save_loop {St} (env : Env) (output_path : Path) (base_filename : string)
    (i : nat) (images : list Image) (saved_paths : list string)
    : M St (list string) :=
  match images with
  | [] => ret saved_paths
  | img :: rest =>
      let filename := base_filename +:+ "_" +:+ format_02d i +:+ ".png" in
      let filepath := div output_path filename in
      exec emit (SaveImage (str filepath) img);
      match save_error env (str filepath) with
      | Some e => raise e
      | None =>
          save_loop env output_path base_filename (S i) rest
                    (saved_paths ++ [str filepath])
      end
  end.

Definition save_images {St} (env : Env) (images : list Image) (output_dir : string)
    (base_filename : option string) : M St (list string) :=
  let base_filename := default "page" base_filename in
  let output_path := of_string output_dir in
  exec emit (Mkdir (str output_path));
  match mkdir_error env (str output_path) with
  | Some e => raise e
  | None => save_loop env output_path base_filename 1 images []
  end.

(** *** FileManager *)

Definition generate_output_filename (input_path : string) (suffix : option string)
    : string :=
  let suffix := default "improved" suffix in
  let input_path := of_string input_path in
  let base_name := stem input_path in
  str (div (parent input_path) (base_name +:+ "_" +:+ suffix +:+ ".pdf")).

Definition validate_pdf_path {St} (env : Env) (pdf_path : string) : M St Path :=
  let path := of_string pdf_path in
  do found <- Path_exists env (str path);
  if negb found then
    raise (FileNotFoundError ("File not found: " +:+ str path))
  else if negb (bool_decide (lower (Pathlib.suffix path) = ".pdf")) then
    raise (ValueError ("File is not a PDF: " +:+ str path))
  else ret path.

(** *** ResumeProcessor *)

Record ResumeProcessor : Type := {
  prompt_manager : PromptManager;
  pdf_processor : PDFProcessor;
}.

Definition new_ResumeProcessor (env : Env) (prompts_directory : option string)
    (dpi : nat) : ResumeProcessor :=
  {| prompt_manager := new_PromptManager env prompts_directory;
     pdf_processor := new_PDFProcessor dpi |}.

Definition on_pdf_processor {A} (m : M PDFProcessor A) : M ResumeProcessor A :=
  zoom pdf_processor
       (λ p self, {| prompt_manager := prompt_manager self; pdf_processor := p |}) m.

Definition process_pdf (env : Env) (pdf_path : string) (output_dir : option string)
    : M ResumeProcessor (string * list Image * list string) :=
  do validated_path <- validate_pdf_path env pdf_path;
  exec print ("Processing resume PDF: " +:+ str validated_path);
  do text_content <- on_pdf_processor (extract_text env (str validated_path));
  do images <- on_pdf_processor (convert_to_images env (str validated_path) None);
  exec print ("Extracted " +:+ of_nat (len text_content) +:+ " characters of text");
  exec print ("Converted " +:+ of_nat (List.length images) +:+ " pages to images");
  do saved_paths <-
    match output_dir with
    | Some dir =>
        if truthy dir then
          do saved <- save_images env images dir (Some "resume_page");
          exec print ("Saved " +:+ of_nat (List.length saved) +:+ " images to " +:+ dir);
          ret saved
        else ret []
    | None => ret []
    end;
  ret (text_content, images, saved_paths).

End Utils.

(** ** The turn-taking group of the agent library *)

Module AutoGen.
Import PyStr.

(** [TextMentionTermination(text, sources=...)]. *)
Record TextMentionTermination : Type := {
  text : string;
  sources : option (list string);
}.

(** [RoundRobinGroupChat(participants, termination_condition=...)]. *)
Record RoundRobinGroupChat : Type := {
  participants : list Agent;
  termination_condition : option TextMentionTermination;
}.

(** [TaskResult]. *)
Record TaskResult : Type := { messages : list Message }.

(** What [run_stream] yields: every message as it is emitted, and the
    [TaskResult] as the last item. *)
Inductive StreamItem : Type :=
  | ItemMessage (m : Message)
  | ItemResult (r : TaskResult).

(** Modelled from the spec: the termination predicate of the agent library,
    which is not part of the repository.  The marker is searched in a
    message only when the message is attributed to one of the designated
    sources; without designated sources every message is searched. *)
Definition mentions (cond : TextMentionTermination) (m : Message) : bool :=
  match sources cond with
  | Some names => bool_decide (source m ∈ names)
  | None => true
  end
  && contains (text cond) (content m).

Definition terminated (team : RoundRobinGroupChat) (m : Message) : bool :=
  match termination_condition team with
  | Some cond => mentions cond m
  | None => false
  end.

(** The message an agent emits on its turn. *)
Definition TextMessage (name answer : string) : Message :=
  {| source := name; content := answer; attachment := None |}.

(** Modelled from the spec: the round loop of the turn-taking group, which
    is not part of the repository.  The agents speak in their fixed order,
    one message per turn, every message is appended to the thread, and the
    loop stops when the termination predicate fires on the message just
    emitted.  There is no bound on the number of rounds: [fuel] bounds the
    turns the model follows, and a loop still running when it is used up is
    reported as [Hang].  The state is the thread of the run. *)
Fixpoint rounds (env : Env) (team : RoundRobinGroupChat) (fuel turn : nat)
    : M (list Message) unit :=
  match fuel with
  | O => hang
  | S fuel' =>
      match participants team !! (turn `mod` List.length (participants team)) with
      | None => raise (ValueError "At least one participant is required.")
      | Some speaker =>
          do thread <- get;
          exec emit (Inference (agent_name speaker));
          match model_reply env speaker thread with
          | inl e => raise e
          | inr answer =>
              let m := TextMessage (agent_name speaker) answer in
              exec put (thread ++ [m]);
              if terminated team m then ret tt
              else rounds env team fuel' (S turn)
          end
      end
  end.

(** Modelled from the spec: a run of the group on a task.  The task opens
    the thread as a message of the user; the termination predicate sees it
    before the first turn. *)
Definition group_chat (env : Env) (team : RoundRobinGroupChat) (fuel : nat)
    (task : Message) : M (list Message) unit :=
  exec put [task];
  if terminated team task then ret tt
  else rounds env team fuel 0.

(** The stream of a finished run. *)
Definition stream_of (thread : list Message) : list StreamItem :=
  map ItemMessage thread ++ [ItemResult {| messages := thread |}].

(** [team.run_stream(task=task)] consumed to its end, for a team that has
    not run before. *)
Definition team_run_stream {St} (env : Env) (team : RoundRobinGroupChat)
    (fuel : nat) (task : string) : M St (list StreamItem) :=
  λ s, let user := {| source := "user"; content := task; attachment := None |} in
       let '(r, thread, out) := group_chat env team fuel user [] in
       (match r with
        | Return _ => Return (stream_of thread)
        | Raise e => Raise e
        | Hang => Hang
        end, s, out).

(** Modelled from the spec: [agent.run_stream(task=message)] of a single
    agent, consumed to its end: the task, then the agent's one answer. *)
Definition agent_run_stream {St} (env : Env) (agent : Agent) (task : Message)
    : M St (list StreamItem) :=
  exec emit (Inference (agent_name agent));
  match model_reply env agent [task] with
  | inl e => raise e
  | inr answer => ret (stream_of [task; TextMessage (agent_name agent) answer])
  end.

End AutoGen.

(** ** resumeimprover.py *)

Module ResumeImprover.
Import PyStr AutoGen.

(** [class ResumeTeam]: the two caches. *)
Record ResumeTeam : Type := {
  _team : option RoundRobinGroupChat;
  _image_agent : option Agent;
}.

(** [class ResumeImprover].  The agent factory and the team hold references
    to the same model manager and prompt manager as the improver itself, so
    all of them live in this one record. *)
Record ResumeImprover : Type := {
  model_manager : Model.ModelManager;
  prompt_manager : Utils.PromptManager;
  resume_processor : Utils.ResumeProcessor;
  team : ResumeTeam;
}.

(** [ResumeImprover.__init__], with [os.environ] for the model manager. *)
Definition new_ResumeImprover (env : Env) (environ : gmap string string)
    (model_config : option Model.ModelConfig) (prompts_directory : option string)
    (default_dpi : nat) : exn + ResumeImprover :=
  match Model.new_ModelManager model_config environ with
  | inl e => inl e
  | inr manager =>
      inr {| model_manager := manager;
             prompt_manager := Utils.new_PromptManager env prompts_directory;
             resume_processor := Utils.new_ResumeProcessor env prompts_directory default_dpi;
             team := {| _team := None; _image_agent := None |} |}
  end.

Definition on_model_manager {A} (m : M Model.ModelManager A) : M ResumeImprover A :=
  zoom model_manager
       (λ x self, {| model_manager := x; prompt_manager := prompt_manager self;
                     resume_processor := resume_processor self; team := team self |}) m.

Definition on_prompt_manager {A} (m : M Utils.PromptManager A) : M ResumeImprover A :=
  zoom prompt_manager
       (λ x self, {| model_manager := model_manager self; prompt_manager := x;
                     resume_processor := resume_processor self; team := team self |}) m.

Definition on_resume_processor {A} (m : M Utils.ResumeProcessor A) : M ResumeImprover A :=
  zoom resume_processor
       (λ x self, {| model_manager := model_manager self;
                     prompt_manager := prompt_manager self;
                     resume_processor := x; team := team self |}) m.

Definition on_team {A} (m : M ResumeTeam A) : M ResumeImprover A :=
  zoom team
       (λ x self, {| model_manager := model_manager self;
                     prompt_manager := prompt_manager self;
                     resume_processor := resume_processor self; team := x |}) m.

(** *** AgentFactory *)

Definition create_draft_agent (env : Env) : M ResumeImprover Agent :=
  do client <- on_model_manager Model.client;
  do prompt <- on_prompt_manager (Utils.load_prompt env "resume_draft_agent_prompt");
  ret {| agent_name := "ResumeDraftAgent"; model_client := client;
         system_message := prompt |}.

Definition create_enhancement_agent (env : Env) : M ResumeImprover Agent :=
  do client <- on_model_manager Model.client;
  do prompt <- on_prompt_manager (Utils.load_prompt env "resume_enhancement_agent_prompt");
  ret {| agent_name := "ResumeEnhancementAgent"; model_client := client;
         system_message := prompt |}.

Definition create_conciseness_agent (env : Env) : M ResumeImprover Agent :=
  do client <- on_model_manager Model.client;
  do prompt <- on_prompt_manager (Utils.load_prompt env "resume_conciseness_agent_prompt");
  ret {| agent_name := "ResumeConcisenessAgent"; model_client := client;
         system_message := prompt |}.

Definition create_image_agent (env : Env) : M ResumeImprover Agent :=
  do client <- on_model_manager Model.client;
  do prompt <- on_prompt_manager (Utils.load_prompt env "resume_image_agent_prompt");
  ret {| agent_name := "ResumeImageAgent"; model_client := client;
         system_message := prompt |}.

(** *** ResumeTeam *)

Definition create_team (env : Env) : M ResumeImprover RoundRobinGroupChat :=
  do self <- get;
  match _team (team self) with
  | None =>
      do draft_agent <- create_draft_agent env;
      do enhancement_agent <- create_enhancement_agent env;
      do conciseness_agent <- create_conciseness_agent env;
      let termination_condition :=
        {| text := "FINAL"; sources := Some ["ResumeConcisenessAgent"] |} in
      let built :=
        {| participants := [draft_agent; enhancement_agent; conciseness_agent];
           termination_condition := Some termination_condition |} in
      exec on_team (do t <- get;
                   put {| _team := Some built; _image_agent := _image_agent t |});
      ret built
  | Some built => ret built
  end.

Definition get_image_agent (env : Env) : M ResumeImprover Agent :=
  do self <- get;
  match _image_agent (team self) with
  | None =>
      do agent <- create_image_agent env;
      exec on_team (do t <- get;
                   put {| _team := _team t; _image_agent := Some agent |});
      ret agent
  | Some agent => ret agent
  end.

(** *** ResumeImprover *)

(** What both stages do with a consumed stream: [improve_result] is the last
    item the loop saw, [None] if there was none; the answer is the content of
    the last message of its [messages], if it has any. *)
Definition last_content {St} (stream : list StreamItem) : M St (option string) :=
  match last stream with
  | None => ret None
  | Some (ItemResult improve_result) =>
      match last (messages improve_result) with
      | Some m => ret (Some (content m))
      | None => ret None
      end
  | Some (ItemMessage _) =>
      raise (AttributeError "object has no attribute 'messages'")
  end.

(** The task string built by [improve_resume_text]. *)
Definition team_task (task_prompt resume_text : string) : string :=
  task_prompt +:+ nl +:+ nl +:+ "Original Resume Text:" +:+ nl +:+ resume_text.

(** [improve_resume_text].  What [team.run_stream] yields is decided by the
    agent library; it is a parameter here, and [improve_resume_text] below
    supplies the run of the turn-taking group. *)
Definition improve_resume_text_with
    (run_stream : RoundRobinGroupChat → string → M ResumeImprover (list StreamItem))
    (env : Env) (resume_text : string) : M ResumeImprover (option string) :=
  do task_prompt <- on_prompt_manager (Utils.load_prompt env "resume_team_task_prompt");
  let task := team_task task_prompt resume_text in
  do team <- create_team env;
  do stream <- run_stream team task;
  last_content stream.

Definition improve_resume_text (env : Env) (fuel : nat) (resume_text : string)
    : M ResumeImprover (option string) :=
  improve_resume_text_with (λ team task, team_run_stream env team fuel task)
                           env resume_text.

Definition generate_resume_image (env : Env) (improved_text : string)
    (original_image : Image) : M ResumeImprover (option string) :=
  do image_agent <- get_image_agent env;
  let image_task :=
    {| source := "user";
       content := "New Resume Content:" +:+ nl +:+ improved_text +:+ nl +:+ nl
                  +:+ "Original image with desired format attached";
       attachment := Some original_image |} in
  do stream <- agent_run_stream env image_agent image_task;
  last_content stream.

(** Truthiness of an [Optional[str]]. *)
Definition has_text (o : option string) : bool :=
  match o with
  | Some s => truthy s
  | None => false
  end.

(** [improve_resume].  The two stages are methods looked up on the object
    when they are called (the tests replace them), so they are parameters
    here; [improve_resume] below supplies the methods of the class. *)
Definition improve_resume_with
    (improve_resume_text : string → M ResumeImprover (option string))
    (generate_resume_image : string → Image → M ResumeImprover (option string))
    (resume_text : string) (resume_image : Image) : M ResumeImprover (option string) :=
  exec print "Step 1: Improving resume text content...";
  do improved_text <- improve_resume_text resume_text;
  if negb (has_text improved_text) then
    exec print "❌ Failed to improve resume text content";
    ret None
  else
    exec print "✓ Resume text improved successfully";
    exec print "Step 2: Generating improved resume file...";
    do final_content <- generate_resume_image (default "" improved_text) resume_image;
    exec (if has_text final_content
          then print "✓ Resume image generated successfully"
          else print "❌ Failed to generate resume image");
    ret final_content.

Definition improve_resume (env : Env) (fuel : nat)
    : string → Image → M ResumeImprover (option string) :=
  improve_resume_with (improve_resume_text env fuel) (generate_resume_image env).

Definition process_pdf_file (env : Env) (pdf_path : string)
    : M ResumeImprover (string * list Image) :=
  exec print ("Processing resume: " +:+ pdf_path);
  exec print "Extracting text content...";
  do result <- on_resume_processor (Utils.process_pdf env pdf_path None);
  let '(text_content, images, _) := result in
  if negb (truthy (strip text_content)) then
    raise (ValueError "No text could be extracted from the PDF")
  else if bool_decide (images = []) then
    raise (ValueError "No images could be extracted from the PDF")
  else
    exec print ("✓ Extracted " +:+ of_nat (len text_content) +:+ " characters of text");
    exec print ("✓ Converted " +:+ of_nat (List.length images) +:+ " pages to images");
    ret (text_content, images).

Definition save_improved_resume (env : Env) (html_content original_pdf_path : string)
    : M ResumeImprover string :=
  let output_path := Utils.generate_output_filename original_pdf_path None in
  try_except
    (exec emit (HtmlToPdf html_content output_path);
     match from_string_error env html_content output_path with
     | Some e => raise e
     | None => ret output_path
     end)
    any_Exception
    (λ e, raise (RuntimeError ("Failed to save improved resume: " +:+ exn_msg e))).

(** *** ResumeImproverCLI; its only state is the improver *)

Definition get_pdf_path (env : Env) : M ResumeImprover string :=
  do pdf_path <-
    match argv env with
    | _ :: arg :: _ => ret arg
    | _ =>
        exec print "Enter the path to your resume PDF: ";
        match stdin_line env with
        | Some line => ret (strip line)
        | None => raise (EOFError "EOF when reading a line")
        end
    end;
  if negb (truthy pdf_path) then raise (ValueError "No file path provided")
  else ret pdf_path.

Definition validate_pdf_file (env : Env) (pdf_path : string) : M ResumeImprover string :=
  if negb (path_exists env pdf_path) then
    raise (FileNotFoundError ("File '" +:+ pdf_path +:+ "' not found"))
  else if negb (endswith (lower pdf_path) ".pdf") then
    raise (ValueError "Please provide a PDF file")
  else ret pdf_path.

(** The part of [run] that reports a successful improvement and exports. *)
Definition report_and_save (env : Env) (final_resume_content pdf_path : string)
    : M ResumeImprover unit :=
  exec print (nl +:+ repeat "=" 60);
  exec print "RESUME IMPROVEMENT COMPLETED";
  exec print (repeat "=" 60);
  try_except
    (do output_path <- save_improved_resume env final_resume_content pdf_path;
     exec print (nl +:+ "✅ SUCCESS! Your improved resume has been saved as:");
     exec print ("   " +:+ output_path);
     exec print (nl +:+ "The improved resume maintains the original format while enhancing:");
     exec print "• Content quality and impact";
     exec print "• Keyword optimization";
     exec print "• Professional language";
     print "• ATS compatibility")
    any_Exception
    (λ e, exec print (nl +:+ "⚠️  Resume improved but could not save to PDF: " +:+ exn_msg e);
          print "HTML content was generated successfully.").

(** The three [except] clauses of [run], tried in order. *)
Definition report_error (e : exn) : M ResumeImprover unit :=
  match e with
  | FileNotFoundError _ => print ("Error: " +:+ exn_msg e)
  | ValueError _ => print ("Error: " +:+ exn_msg e)
  | _ =>
      exec print ("Error processing resume: " +:+ exn_msg e);
      exec print "Please ensure you have all required dependencies installed.";
      print "Run: uv pip install -r requirements.txt"
  end.

(** [ResumeImproverCLI.run].  The improver is handed to the command line
    interface when it is built, and [improve_resume] is called on it; the
    method is a parameter here, and [run] below supplies the one of
    [ResumeImprover]. *)
Definition run_with (improve_resume : string → Image → M ResumeImprover (option string))
    (env : Env) : M ResumeImprover unit :=
  try_except
    (do pdf_path <- get_pdf_path env;
     do pdf_path <- validate_pdf_file env pdf_path;
     do extracted <- process_pdf_file env pdf_path;
     let '(resume_text, resume_images) := extracted in
     exec print (nl +:+ "Starting resume improvement process...");
     exec print "The AI agents will now work together to improve your resume.";
     exec print (repeat "-" 60);
     do first_image <-
       match resume_images with
       | img :: _ => ret img
       | [] => raise (IndexError "list index out of range")
       end;
     do final_resume_content <- improve_resume resume_text first_image;
     if has_text final_resume_content then
       report_and_save env (default "" final_resume_content) pdf_path
     else
       exec print (nl +:+ "❌ Error: No improved resume was generated by the agents.");
       print "Please check your model configuration and try again.")
    any_Exception
    report_error.

Definition run (env : Env) (fuel : nat) : M ResumeImprover unit :=
  run_with (improve_resume env fuel) env.

(** [ResumeImproverCLI.__init__]: the improver that is handed in, or a
    default one, built from the environment. *)
Definition new_ResumeImproverCLI (env : Env) (environ : gmap string string)
    (resumeimprover : option ResumeImprover) : exn + ResumeImprover :=
  match resumeimprover with
  | Some improver => inr improver
  | None => new_ResumeImprover env environ None None 300
  end.

(** [main]: build the command line interface, then run it.  The result
    carries the improver as the run left it, if one was built. *)
Definition main (env : Env) (environ : gmap string string) (fuel : nat)
    : outcome unit * option ResumeImprover * list event :=
  match new_ResumeImproverCLI env environ None with
  | inl e => (Raise e, None, [])
  | inr cli =>
      let '(r, improver, out) := run env fuel cli in (r, Some improver, out)
  end.

End ResumeImprover.

(** ** A concrete world, used to run the model *)

Module Example.
Import PyStr.

Definition page1 : Image := {| width := 2; height := 1; pixels := [255; 0]%N |}.
Definition page2 : Image := {| width := 1; height := 1; pixels := [7]%N |}.

(** The prompt templates on disk. *)
Definition prompt_files : gmap string string :=
  list_to_map
    [("app/prompts/resume_team_task_prompt.txt", "Improve this resume. Say FINAL when done." +:+ nl);
     ("app/prompts/resume_draft_agent_prompt.txt", "You draft.");
     ("app/prompts/resume_enhancement_agent_prompt.txt", "You enhance.");
     ("app/prompts/resume_conciseness_agent_prompt.txt", "You shorten.");
     ("app/prompts/resume_image_agent_prompt.txt", "You lay out.")].

(** The draft agent mentions the marker at once; the conciseness agent only
    on its second turn. *)
Definition reply (agent : Agent) (thread : list Message) : exn + string :=
  if bool_decide (agent_name agent = "ResumeDraftAgent") then inr "Draft, not FINAL yet"
  else if bool_decide (agent_name agent = "ResumeEnhancementAgent") then inr "Enhanced"
  else if bool_decide (agent_name agent = "ResumeConcisenessAgent") then
    if Nat.ltb (List.length thread) 5 then inr "Shorter" else inr "Experience: built tools. FINAL"
  else inr "<html>Experience: built tools.</html>".

Definition world_of (args : list string) : Env :=
  {| argv := args;
     stdin_line := Some "";
     os_name := "posix";
     venv_bin := None;
     module_dir := "app";
     path_exists := λ p, bool_decide (p ∈ ["cv/resume.PDF"; "cv/scan.pdf"; "cv/notes.txt";
                                           "/usr/bin/pdftoppm"]);
     stat_error := λ _, None;
     read_text := λ p, match prompt_files !! p with
                       | Some t => inr t
                       | None => inl (FileNotFoundError "No such file or directory")
                       end;
     pdf_pages := λ p, if bool_decide (p = "cv/resume.PDF")
                       then inr [inr "Experience: built tools."; inr ""]
                       else if bool_decide (p = "cv/scan.pdf")
                       then inr [inr "  "; inr ""]
                       else inl (LibraryError "EOF marker not found");
     convert_from_path := λ p _ _, if bool_decide (p = "cv/resume.PDF")
                                   then inr [page1; page2]
                                   else if bool_decide (p = "cv/scan.pdf")
                                   then inr [page1]
                                   else inl (LibraryError "Unable to get page count.");
     mkdir_error := λ _, None;
     save_error := λ _, None;
     model_reply := reply;
     from_string_error := λ _ _, None |}.

(** The program started on a resume with text, and on a scan without. *)
Definition world : Env := world_of ["resumeimprover.py"; "cv/resume.PDF"].
Definition scan_world : Env := world_of ["resumeimprover.py"; "cv/scan.pdf"].

Definition test_config : Model.ModelConfig :=
  {| Model.api_key := "test-key";
     Model.endpoint := "https://test.openai.azure.com/";
     Model.api_version := "2025-01-01";
     Model.deployment_name := "gpt-4o" |}.

Definition manager : Model.ModelManager :=
  {| Model._config := test_config; Model._client := None; Model.constructed := 0 |}.

(** The manager after one use of its [client] property. *)
Definition cached_manager : Model.ModelManager :=
  (Model.client manager).1.2.

(** The update of the credential and the deployment id only. *)
Definition new_fields : gmap string string :=
  {[ "api_key" := "new-key"; "deployment_name" := "gpt-4-turbo" ]}.

(** An update that empties the endpoint. *)
Definition bad_fields : gmap string string :=
  {[ "endpoint" := ""; "deployment_name" := "gpt-4-turbo" ]}.

Definition improver : ResumeImprover.ResumeImprover :=
  {| ResumeImprover.model_manager := manager;
     ResumeImprover.prompt_manager := Utils.new_PromptManager world None;
     ResumeImprover.resume_processor := Utils.new_ResumeProcessor world None 300;
     ResumeImprover.team :=
       {| ResumeImprover._team := None; ResumeImprover._image_agent := None |} |}.

(** Environment variables with and without the endpoint. *)
Definition environ : gmap string string :=
  {[ "AZURE_OPENAI_API_KEY" := "test-key";
     "AZURE_OPENAI_ENDPOINT" := "https://test.openai.azure.com/" ]}.

Definition environ_no_endpoint : gmap string string :=
  {[ "AZURE_OPENAI_API_KEY" := "test-key" ]}.

(** A world in which the export fails. *)
Definition readonly_world : Env :=
  {| argv := argv world; stdin_line := stdin_line world; os_name := os_name world;
     venv_bin := venv_bin world; module_dir := module_dir world;
     path_exists := path_exists world; stat_error := stat_error world;
     read_text := read_text world;
     pdf_pages := pdf_pages world; convert_from_path := convert_from_path world;
     mkdir_error := mkdir_error world; save_error := save_error world;
     model_reply := model_reply world;
     from_string_error := λ _ _, Some (LibraryError "Permission denied") |}.

(** A file name of 304 bytes, more than a name may have. *)
Definition long_name : string := repeat "a" 300 +:+ ".txt".

(** The world as pathlib sees it before Python 3.14: looking up the long
    name fails with an error that [Path.exists] does not take for
    absence. *)
Definition strict_world : Env :=
  {| argv := argv world; stdin_line := stdin_line world; os_name := os_name world;
     venv_bin := venv_bin world; module_dir := module_dir world;
     path_exists := path_exists world;
     stat_error := λ p, if bool_decide (p = long_name)
                        then Some ("[Errno 36] File name too long: '" +:+ long_name +:+ "'")
                        else None;
     read_text := read_text world;
     pdf_pages := pdf_pages world; convert_from_path := convert_from_path world;
     mkdir_error := mkdir_error world; save_error := save_error world;
     model_reply := model_reply world; from_string_error := from_string_error world |}.

(** The program started without an argument; [line] is what is typed. *)
Definition typing_world (line : option string) : Env :=
  {| argv := ["resumeimprover.py"]; stdin_line := line; os_name := os_name world;
     venv_bin := venv_bin world; module_dir := module_dir world;
     path_exists := path_exists world; stat_error := stat_error world;
     read_text := read_text world;
     pdf_pages := pdf_pages world; convert_from_path := convert_from_path world;
     mkdir_error := mkdir_error world; save_error := save_error world;
     model_reply := model_reply world; from_string_error := from_string_error world |}.

(** A no-break space, a tab and an ideographic space. *)
Definition blanks : string := utf8 160 +:+ utf8 9 +:+ utf8 12288.

End Example.

(** ** Invariants and observations used by the properties *)

Module Observe.

(** A cached client was built by this manager: its identity is below the
    count of clients built so far. *)
Definition manager_ok (m : Model.ModelManager) : Prop :=
  match Model._client m with
  | Some c => Model.handle c < Model.constructed m
  | None => True
  end.

(** The client handle reflects the given configuration. *)
Definition reflects (c : Model.Client) (cfg : Model.ModelConfig) : Prop :=
  Model.azure_deployment c = Model.deployment_name cfg
  ∧ Model.model c = Model.deployment_name cfg
  ∧ Model.client_api_key c = Model.api_key cfg
  ∧ Model.azure_endpoint c = Model.endpoint cfg
  ∧ Model.client_api_version c = Model.api_version cfg.

(** The given fields laid over a configuration: a field named in [kwargs]
    takes the given value, every other field keeps its value. *)
Definition merge (cfg : Model.ModelConfig) (kwargs : gmap string string)
    : Model.ModelConfig :=
  {| Model.api_key := default (Model.api_key cfg) (kwargs !! "api_key");
     Model.endpoint := default (Model.endpoint cfg) (kwargs !! "endpoint");
     Model.api_version := default (Model.api_version cfg) (kwargs !! "api_version");
     Model.deployment_name :=
       default (Model.deployment_name cfg) (kwargs !! "deployment_name") |}.

(** The string does not begin with a white space character: none of its
    first one, two or three bytes is one. *)
Definition no_leading_space (s : string) : Prop :=
  match s with
  | String a s1 =>
      PyStr.isspace (String a "") = false
      ∧ match s1 with
        | String b s2 =>
            PyStr.isspace (String a (String b "")) = false
            ∧ match s2 with
              | String c _ => PyStr.isspace (String a (String b (String c ""))) = false
              | EmptyString => True
              end
        | EmptyString => True
        end
  | EmptyString => True
  end.

(** The first page that fails to yield its text, if any. *)
Fixpoint first_failure (pages : list (exn + string)) : option exn :=
  match pages with
  | [] => None
  | inl e :: _ => Some e
  | inr _ :: rest => first_failure rest
  end.

(** The exception that reading the PDF at [path] runs into, if any: opening
    or parsing the file fails, or one of its pages does. *)
Definition parse_failure (env : Env) (path : string) : option exn :=
  match pdf_pages env path with
  | inl e => Some e
  | inr pages => first_failure pages
  end.

(** The file at [path] cannot be converted, whatever the settings. *)
Definition conversion_fails (env : Env) (path : string) : Prop :=
  ∀ dpi poppler_path, ∃ e, convert_from_path env path dpi poppler_path = inl e.

(** The name under which [save_images] stores the image with index [i]. *)
Definition page_path (output_dir base_name : string) (i : nat) : string :=
  Pathlib.str (Pathlib.div (Pathlib.of_string output_dir)
                           (base_name +:+ "_" +:+ PyStr.format_02d i +:+ ".png")).

(** The names for [n] images, numbered from [start]. *)
Definition page_paths (output_dir base_name : string) (start n : nat) : list string :=
  map (page_path output_dir base_name) (seq start n).

(** The three roles of the text pipeline, in their speaking order. *)
Definition text_roles : list string :=
  ["ResumeDraftAgent"; "ResumeEnhancementAgent"; "ResumeConcisenessAgent"].

(** The message that ends the text pipeline: emitted by the conciseness
    agent and containing the marker. *)
Definition is_final (m : Message) : Prop :=
  source m = "ResumeConcisenessAgent" ∧ PyStr.contains "FINAL" (content m) = true.

(** The team that [create_team] builds. *)
Definition text_team (t : AutoGen.RoundRobinGroupChat) : Prop :=
  map agent_name (AutoGen.participants t) = text_roles
  ∧ AutoGen.termination_condition t
    = Some {| AutoGen.text := "FINAL";
              AutoGen.sources := Some ["ResumeConcisenessAgent"] |}.

(** The caches of the improver hold what its own methods put there. *)
Definition improver_ok (self : ResumeImprover.ResumeImprover) : Prop :=
  match ResumeImprover._team (ResumeImprover.team self) with
  | Some t => text_team t
  | None => True
  end
  ∧ match ResumeImprover._image_agent (ResumeImprover.team self) with
    | Some a => agent_name a = "ResumeImageAgent"
    | None => True
    end.

(** The task as the message that opens the thread. *)
Definition user_message (task : string) : Message :=
  {| source := "user"; content := task; attachment := None |}.

(** Events by kind. *)
Definition is_print (ev : event) : Prop :=
  match ev with Print _ => True | _ => False end.

Definition is_text_inference (ev : event) : Prop :=
  match ev with Inference a => a ∈ text_roles | _ => False end.

Definition is_export (ev : event) : Prop :=
  match ev with HtmlToPdf _ _ => True | _ => False end.

(** Every event a computation produces, from whatever state, satisfies [P]. *)
Definition emits {St A} (P : event → Prop) (m : M St A) : Prop :=
  ∀ s, Forall P (m s).2.

(** The agents that were asked, in order, during a run. *)
Definition asked (out : list event) : list string :=
  omap (λ ev, match ev with Inference a => Some a | _ => None end) out.

(** The exports that were attempted during a run. *)
Definition exported (out : list event) : list string :=
  omap (λ ev, match ev with HtmlToPdf _ path => Some path | _ => None end) out.

(** A computation that ends, with a value or an exception, from whatever
    state. *)
Definition halts {St A} (m : M St A) : Prop := ∀ s, (m s).1.1 ≠ Hang.

End Observe.

(** * Properties *)

(** ** The configuration holder *)

Section ConfigurationHolder.
Import Model.

Lemma post_init_None (c : ModelConfig) :
  post_init c = None ↔
  api_key c ≠ "" ∧ endpoint c ≠ "" ∧ api_version c ≠ "" ∧ deployment_name c ≠ "".
Proof.
  unfold post_init. repeat case_bool_decide; intuition congruence.
Qed.

(** C6.  Construction succeeds exactly when the credential, the endpoint,
    the API version and the deployment id (after defaults) are all
    non-empty, and then stores them; when it fails, the error names the
    first empty field in the order credential, endpoint, API version,
    deployment id. *)
Theorem config_construction (key ep : string) (ver dep : option string) :
  let v := default "2025-01-01" ver in
  let d := default "gpt-4o" dep in
  let built := {| api_key := key; endpoint := ep;
                  api_version := v; deployment_name := d |} in
  ((∃ c, new_ModelConfig key ep ver dep = inr c)
     ↔ key ≠ "" ∧ ep ≠ "" ∧ v ≠ "" ∧ d ≠ "")
  ∧ (key ≠ "" ∧ ep ≠ "" ∧ v ≠ "" ∧ d ≠ ""
     → new_ModelConfig key ep ver dep = inr built)
  ∧ (key = ""
     → new_ModelConfig key ep ver dep
       = inl (ValueError "AZURE_OPENAI_API_KEY is required"))
  ∧ (key ≠ "" ∧ ep = ""
     → new_ModelConfig key ep ver dep
       = inl (ValueError "AZURE_OPENAI_ENDPOINT is required"))
  ∧ (key ≠ "" ∧ ep ≠ "" ∧ v = ""
     → new_ModelConfig key ep ver dep
       = inl (ValueError "AZURE_OPENAI_API_VERSION is required"))
  ∧ (key ≠ "" ∧ ep ≠ "" ∧ v ≠ "" ∧ d = ""
     → new_ModelConfig key ep ver dep
       = inl (ValueError "AZURE_OPENAI_DEPLOYMENT_NAME is required")).
Proof.
  intros v d built. unfold new_ModelConfig, post_init. simpl.
  fold v d built.
  repeat case_bool_decide; intuition (eauto; try congruence);
    match goal with H : ∃ _, _ |- _ => destruct H; congruence end.
Qed.

End ConfigurationHolder.

(** ** The model client factory *)

Section ModelClientFactory.
Import Model Observe.

Lemma dict_get_list_to_map (k : string) (d : dict) :
  dict_get k d = (list_to_map d : gmap string string) !! k.
Proof.
  induction d as [|[k' v] d IH]; simpl; [by rewrite lookup_empty|].
  case_bool_decide as Hk.
  - subst k'. by rewrite lookup_insert_eq.
  - by rewrite lookup_insert_ne.
Qed.

Lemma dict_get_app (k : string) (d1 d2 : dict) :
  dict_get k (d1 ++ d2) = from_option Some (dict_get k d2) (dict_get k d1).
Proof.
  induction d1 as [|[k' v] d1 IH]; simpl; [done|]. by case_bool_decide.
Qed.

Lemma dict_get_set (k k' v : string) (d : dict) :
  dict_get k (dict_set k' v d) = if bool_decide (k' = k) then Some v else dict_get k d.
Proof.
  induction d as [|[k0 v0] d IH]; simpl; [done|].
  destruct (decide (k0 = k')) as [->|Hne].
  - rewrite bool_decide_true by done. simpl. by case_bool_decide.
  - rewrite bool_decide_false by done. simpl. rewrite IH.
    repeat case_bool_decide; congruence.
Qed.

(** After [d.update(other)] a key has the value that [other] gave it last,
    or else the value it had in [d]. *)
Lemma dict_get_update (k : string) (d other : dict) :
  dict_get k (dict_update d other)
  = from_option Some (dict_get k d) (dict_get k (reverse other)).
Proof.
  unfold dict_update. revert d.
  induction other as [|[k' v] other IH]; intros d; simpl; [done|].
  rewrite IH, reverse_cons, dict_get_app, dict_get_set. simpl.
  destruct (dict_get k (reverse other)); simpl; [done|]. by case_bool_decide.
Qed.

Lemma unexpected_cons (k v : string) (d : dict) :
  unexpected ((k, v) :: d)
  = if bool_decide (k ∈ field_names) then unexpected d else Some k.
Proof.
  unfold unexpected. simpl. rewrite filter_cons.
  destruct (decide (k ∉ field_names)) as [Hk|Hk].
  - by rewrite bool_decide_false.
  - rewrite bool_decide_true; [done|]. by apply dec_stable.
Qed.

Lemma unexpected_set (k v : string) (d : dict) :
  unexpected (dict_set k v d)
  = match unexpected d with
    | Some k0 => Some k0
    | None => if bool_decide (k ∈ field_names) then None else Some k
    end.
Proof.
  induction d as [|[k0 v0] d IH]; cbn [dict_set].
  - by rewrite unexpected_cons.
  - destruct (decide (k0 = k)) as [->|Hk].
    + rewrite bool_decide_true by done. rewrite !unexpected_cons.
      destruct (bool_decide (k ∈ field_names)); [|done]. by destruct (unexpected d).
    + rewrite bool_decide_false by done. rewrite !unexpected_cons, IH.
      by destruct (bool_decide (k0 ∈ field_names)).
Qed.

(** The keys that [d.update(other)] adds come after those of [d], in the
    order of [other]. *)
Lemma unexpected_update (d other : dict) :
  unexpected (dict_update d other)
  = match unexpected d with
    | Some k0 => Some k0
    | None => unexpected other
    end.
Proof.
  unfold dict_update. revert d.
  induction other as [|[k v] other IH]; intros d; cbn [foldl fst snd].
  - by destruct (unexpected d).
  - rewrite IH, unexpected_set, unexpected_cons.
    destruct (unexpected d); [done|]. by destruct (bool_decide (k ∈ field_names)).
Qed.

Lemma unexpected_None (d : dict) :
  unexpected d = None ↔ Forall (λ kv, kv.1 ∈ field_names) d.
Proof.
  induction d as [|[k v] d IH]; [by split|].
  rewrite unexpected_cons, Forall_cons. simpl. case_bool_decide; [|by split; [|intros []]].
  rewrite IH. tauto.
Qed.


Lemma unexpected_map_to_list (kwargs : gmap string string) :
  unexpected (map_to_list kwargs) = None
  ↔ set_Forall (λ k, k ∈ field_names) (dom kwargs).
Proof.
  rewrite unexpected_None, Forall_forall. split.
  - intros H k [v Hk]%elem_of_dom. by apply (H (k, v)), elem_of_map_to_list.
  - intros H [k v] Hk%elem_of_map_to_list. apply H, elem_of_dom. by exists v.
Qed.

Lemma list_to_map_reverse_to_list (kwargs : gmap string string) :
  list_to_map (reverse (map_to_list kwargs)) = kwargs.
Proof.
  rewrite <- (list_to_map_to_list kwargs) at 2.
  apply list_to_map_proper.
  - rewrite fmap_reverse, reverse_Permutation. apply NoDup_fst_map_to_list.
  - apply reverse_Permutation.
Qed.

(** The call of the constructor inside [update_config]: the first keyword
    that is no field is refused by name; otherwise the merged record is
    built and validated. *)
Lemma new_ModelConfig_kwargs_merged (c : ModelConfig) (kwargs : dict) :
  new_ModelConfig_kwargs (dict_update (config_dict_of c) kwargs)
  = match unexpected kwargs with
    | Some k =>
        inl (TypeError ("ModelConfig.__init__() got an unexpected keyword argument '"
                        +:+ k +:+ "'"))
    | None =>
        match post_init (merge c (list_to_map (reverse kwargs))) with
        | Some e => inl e
        | None => inr (merge c (list_to_map (reverse kwargs)))
        end
    end.
Proof.
  unfold new_ModelConfig_kwargs. rewrite unexpected_update.
  change (unexpected (config_dict_of c)) with (@None string).
  destruct (unexpected kwargs); [done|].
  rewrite !dict_get_update. unfold new_ModelConfig, merge.
  rewrite <- !dict_get_list_to_map.
  change (dict_get "api_key" (config_dict_of c)) with (Some (api_key c)).
  change (dict_get "endpoint" (config_dict_of c)) with (Some (endpoint c)).
  change (dict_get "api_version" (config_dict_of c)) with (Some (api_version c)).
  change (dict_get "deployment_name" (config_dict_of c)) with (Some (deployment_name c)).
  by destruct (dict_get "api_key" _), (dict_get "endpoint" _),
    (dict_get "api_version" _), (dict_get "deployment_name" _).
Qed.

Lemma client_cached (m : ModelManager) (c : Client) :
  _client m = Some c → client m = (Return c, m, []).
Proof. intros H. unfold client, bind, get. simpl. rewrite H. reflexivity. Qed.

Lemma client_fresh (m : ModelManager) :
  _client m = None →
  client m
  = (Return {| handle := constructed m;
               azure_deployment := deployment_name (_config m);
               model := deployment_name (_config m);
               client_api_key := api_key (_config m);
               azure_endpoint := endpoint (_config m);
               client_api_version := api_version (_config m) |},
     {| _config := _config m;
        _client := Some {| handle := constructed m;
                           azure_deployment := deployment_name (_config m);
                           model := deployment_name (_config m);
                           client_api_key := api_key (_config m);
                           azure_endpoint := endpoint (_config m);
                           client_api_version := api_version (_config m) |};
        constructed := S (constructed m) |}, []).
Proof. intros H. unfold client, bind, get. simpl. rewrite H. reflexivity. Qed.

(** Every call of [client] returns, leaves the configuration alone, caches
    what it returns and keeps the invariant. *)
Lemma client_returns (m : ModelManager) :
  manager_ok m →
  ∃ c m1, client m = (Return c, m1, [])
          ∧ _client m1 = Some c ∧ _config m1 = _config m ∧ manager_ok m1
          ∧ (_client m = None → handle c = constructed m ∧ reflects c (_config m)).
Proof.
  intros Hok. destruct (_client m) as [c|] eqn:Hc.
  - exists c, m. rewrite (client_cached m c Hc). by repeat split.
  - eexists _, _. rewrite (client_fresh m Hc). unfold manager_ok, reflects.
    split; [reflexivity|]. simpl. repeat split; lia.
Qed.

Lemma update_config_kwargs_unfold (kwargs : dict) (m : ModelManager) :
  update_config_kwargs kwargs m
  = match new_ModelConfig_kwargs (dict_update (config_dict_of (_config m)) kwargs) with
    | inl e => (Raise e, m, [])
    | inr c => (Return tt, {| _config := c; _client := None;
                              constructed := constructed m |}, [])
    end.
Proof.
  unfold update_config_kwargs, bind, get. simpl.
  by destruct (new_ModelConfig_kwargs _).
Qed.

(** [update_config] on a map of keywords: all of them fields, the merged
    record is validated and stored; otherwise one that is no field is
    refused. *)
Lemma update_config_unfold (kwargs : gmap string string) (m : ModelManager) :
  update_config kwargs m
  = if bool_decide (set_Forall (λ k, k ∈ field_names) (dom kwargs))
    then match post_init (merge (_config m) kwargs) with
         | Some e => (Raise e, m, [])
         | None => (Return tt, {| _config := merge (_config m) kwargs; _client := None;
                                  constructed := constructed m |}, [])
         end
    else (Raise (TypeError ("ModelConfig.__init__() got an unexpected keyword argument '"
                            +:+ default "" (unexpected (map_to_list kwargs)) +:+ "'")),
          m, []).
Proof.
  unfold update_config.
  rewrite update_config_kwargs_unfold, new_ModelConfig_kwargs_merged.
  rewrite list_to_map_reverse_to_list.
  pose proof (unexpected_map_to_list kwargs) as Hkeys.
  destruct (unexpected (map_to_list kwargs)) as [k|].
  - rewrite bool_decide_false; [done|]. intros Hall. by apply Hkeys in Hall.
  - rewrite bool_decide_true by (by apply Hkeys).
    by destruct (post_init _).
Qed.

(** When all keywords are fields, the order in which they are written does
    not matter: the call is the one on the map of the keywords. *)
Lemma update_config_kwargs_fields (kwargs : dict) (m : ModelManager) :
  NoDup kwargs.*1 → Forall (λ kv, kv.1 ∈ field_names) kwargs →
  update_config_kwargs kwargs m = update_config (list_to_map kwargs) m.
Proof.
  intros Hnodup Hfields.
  rewrite update_config_unfold, update_config_kwargs_unfold,
    new_ModelConfig_kwargs_merged.
  rewrite (proj2 (unexpected_None kwargs) Hfields).
  assert (list_to_map (reverse kwargs) = (list_to_map kwargs : gmap string string)) as ->.
  { apply list_to_map_proper; [|apply reverse_Permutation].
    by rewrite fmap_reverse, reverse_Permutation. }
  rewrite bool_decide_true; [by destruct (post_init _)|].
  intros k Hk. rewrite dom_list_to_map_L in Hk.
  apply elem_of_list_to_set, list_elem_of_fmap in Hk as (kv & -> & Hkv).
  by apply (proj1 (Forall_forall _ _) Hfields).
Qed.

(** C5.  Two calls of [client] with no update in between return the same
    handle, the second from the cache.  After a successful update the stored
    configuration is the given fields laid over the prior configuration, the
    cache is empty, and the next call of [client] builds a handle that
    reflects the merged fields and is not the handle cached before. *)
Theorem client_cache_and_update (m : ModelManager) (kwargs : gmap string string) :
  manager_ok m →
  (∃ c m1, client m = (Return c, m1, [])
           ∧ client m1 = (Return c, m1, [])
           ∧ _config m1 = _config m ∧ manager_ok m1)
  ∧ (∀ m' out, update_config kwargs m = (Return tt, m', out) →
       _config m' = merge (_config m) kwargs
       ∧ _client m' = None
       ∧ ∃ c' m'', client m' = (Return c', m'', [])
                   ∧ _client m'' = Some c'
                   ∧ reflects c' (merge (_config m) kwargs)
                   ∧ ∀ old, _client m = Some old → handle c' ≠ handle old).
Proof.
  intros Hok. split.
  - destruct (client_returns m Hok) as (c & m1 & Hrun & Hc & Hcfg & Hok1 & _).
    exists c, m1. by rewrite Hrun, (client_cached m1 c Hc).
  - intros m' out. rewrite update_config_unfold.
    case_bool_decide; [|discriminate].
    destruct (post_init (merge (_config m) kwargs)); [discriminate|].
    intros [= <- <-]. simpl. split; [done|]. split; [done|].
    eexists _, _. rewrite client_fresh by done. simpl.
    split; [done|]. split; [done|]. split; [by unfold reflects|].
    intros old Hold. unfold manager_ok in Hok. rewrite Hold in Hok. simpl. lia.
Qed.

Lemma client_cache_and_update_witness :
  manager_ok Example.cached_manager
  ∧ ∃ m', update_config Example.new_fields Example.cached_manager = (Return tt, m', [])
          ∧ endpoint (_config m') = "https://test.openai.azure.com/"
          ∧ api_version (_config m') = "2025-01-01"
          ∧ api_key (_config m') = "new-key"
          ∧ deployment_name (_config m') = "gpt-4-turbo"
          ∧ _client m' = None.
Proof.
  assert (manager_ok Example.cached_manager) as Hok by (vm_compute; lia).
  split; [exact Hok|].
  destruct (client_cache_and_update Example.cached_manager Example.new_fields Hok)
    as [_ Hupd].
  eexists. split; [vm_compute; reflexivity|].
  edestruct Hupd as (Hcfg & Hnone & _); [vm_compute; reflexivity|].
  rewrite Hcfg. by vm_compute.
Defined.

(** C9.  When the merged fields fail validation, [update_config] raises the
    validation error and the manager is exactly as it was: the stored
    configuration and the cached client are untouched.  The same holds for
    whatever else the call may raise. *)
Theorem update_config_atomic (m : ModelManager) (kwargs : gmap string string) (e : exn) :
  set_Forall (λ k, k ∈ field_names) (dom kwargs) →
  post_init (merge (_config m) kwargs) = Some e →
  update_config kwargs m = (Raise e, m, [])
  ∧ ∀ e' m' out, update_config kwargs m = (Raise e', m', out) → m' = m.
Proof.
  intros Hkeys Hinvalid.
  rewrite update_config_unfold.
  rewrite bool_decide_true by done. rewrite Hinvalid.
  split; [done|]. by intros e' m' out [= _ <- _].
Qed.

Lemma update_config_atomic_witness :
  update_config Example.bad_fields Example.cached_manager
  = (Raise (ValueError "AZURE_OPENAI_ENDPOINT is required"), Example.cached_manager, []).
Proof.
  apply (update_config_atomic Example.cached_manager Example.bad_fields).
  - apply (bool_decide_unpack _). by vm_compute.
  - by vm_compute.
Defined.

End ModelClientFactory.

(** ** The document extractor *)

(** Unfold the plumbing of the monad. *)
Ltac run_monad :=
  unfold bind, ret, raise, hang, get, put, print, emit, try_except, zoom,
    any_Exception; simpl.

Section MonadFacts.

Lemma bind_eq {St A B} (m : M St A) (k : A → M St B) (s : St) :
  bind m k s
  = match m s with
    | (Return a, s1, out1) => let '(r, s2, out2) := k a s1 in (r, s2, out1 ++ out2)
    | (Raise e, s1, out1) => (Raise e, s1, out1)
    | (Hang, s1, out1) => (Hang, s1, out1)
    end.
Proof. reflexivity. Qed.

End MonadFacts.

Section DocumentExtractor.
Import PyStr Pathlib Utils Observe.
Context (env : Env).

(** The existence test of pathlib: it answers, or it raises the error of
    the operating system; it changes and prints nothing. *)
Lemma Path_exists_true {St} (p : string) (s : St) :
  path_exists env p = true → Path_exists env p s = (Return true, s, []).
Proof. unfold Path_exists. by intros ->. Qed.


Lemma Path_exists_error {St} (p msg : string) (s : St) :
  path_exists env p = false → stat_error env p = Some msg →
  Path_exists env p s = (Raise (OSError msg), s, []).
Proof. unfold Path_exists. by intros -> ->. Qed.

Lemma Path_exists_run {St} (p : string) (s : St) :
  ∃ r, Path_exists env p s = (r, s, []) ∧ r ≠ Hang
       ∧ (r = Return true ↔ path_exists env p = true)
       ∧ (∀ e, r = Raise e → ∃ msg, e = OSError msg).
Proof.
  unfold Path_exists. destruct (path_exists env p).
  - eexists. by repeat split.
  - destruct (stat_error env p) as [msg|]; eexists; (split; [reflexivity|]);
      repeat split; try done.
    intros e [= <-]. by exists msg.
Qed.

Lemma concat_pages_run {St} (pages : list (exn + string)) (acc : string) (s : St) :
  ∃ r, concat_pages acc pages s = (r, s, [])
       ∧ match first_failure pages with
         | Some e => r = Raise e
         | None => ∃ text, r = Return text
         end.
Proof.
  revert acc. induction pages as [|[e|t] rest IH]; intros acc; simpl.
  - eexists. split; [reflexivity|]. by eexists.
  - eexists. by split.
  - apply IH.
Qed.

(** With the file in place, [extract_text] returns: the empty string and a
    warning when reading fails, the text otherwise. *)
Lemma extract_text_exists (pdf_path : string) (self : PDFProcessor) :
  path_exists env (str (of_string pdf_path)) = true →
  match parse_failure env (str (of_string pdf_path)) with
  | Some e =>
      extract_text env pdf_path self
      = (Return "", self,
         [Print ("Warning: Could not extract text from PDF: " +:+ exn_msg e)])
  | None => ∃ text, extract_text env pdf_path self = (Return text, self, [])
  end.
Proof.
  intros Hex. unfold extract_text, parse_failure.
  rewrite bind_eq, (Path_exists_true _ _ Hex). simpl.
  destruct (pdf_pages env _) as [e|pages].
  - reflexivity.
  - destruct (concat_pages_run pages "" self) as (r & Hrun & Hr).
    destruct (first_failure pages) as [e|].
    + subst r. run_monad. by rewrite Hrun.
    + destruct Hr as [text ->]. eexists. run_monad. by rewrite Hrun.
Qed.

(** The loop over the candidate directories changes and prints nothing. *)
Lemma find_pdftoppm_run {St} (paths : list string) (s : St) :
  ∃ r, find_pdftoppm env paths s = (r, s, []) ∧ r ≠ Hang.
Proof.
  induction paths as [|path rest IH]; simpl; [by eexists|].
  rewrite bind_eq.
  destruct (Path_exists_run (str (div (of_string path)
              (if bool_decide (os_name env = "nt") then "pdftoppm.exe" else "pdftoppm"))) s)
    as (r & -> & Hr & _).
  destruct r as [[]|e|]; [by eexists| |by eexists|done].
  destruct IH as (r & -> & Hr'). by eexists.
Qed.

(** The search ends, with a directory, with nothing and a warning, or with
    the error of an existence test; it does not change the processor. *)
Lemma find_poppler_path_run (self : PDFProcessor) :
  ∃ r out, _find_poppler_path env self = (r, self, out) ∧ r ≠ Hang.
Proof.
  unfold _find_poppler_path. rewrite bind_eq.
  destruct (find_pdftoppm_run (possible_paths env) self) as (r & -> & Hr).
  destruct r as [[path|]|e|]; [by eexists _, _..|done].
Qed.

Local Arguments _find_poppler_path : simpl never.

(** With the file in place, [convert_to_images] returns. *)
Lemma convert_to_images_exists (pdf_path : string) (dpi : option nat)
    (self : PDFProcessor) :
  path_exists env (str (of_string pdf_path)) = true →
  ∃ images self' out,
    convert_to_images env pdf_path dpi self = (Return images, self', out)
    ∧ default_dpi self' = default_dpi self
    ∧ (conversion_fails env (str (of_string pdf_path)) →
       images = []
       ∧ ∃ e, last out = Some (Print ("Error converting PDF to images: " +:+ exn_msg e))).
Proof.
  intros Hex. unfold convert_to_images.
  rewrite bind_eq, (Path_exists_true _ _ Hex). run_monad.
  set (d := match dpi with Some (S d) => S d | _ => default_dpi self end).
  destruct (_poppler_path self) as [cached|] eqn:Hcache; simpl.
  - rewrite Hcache.
    destruct (convert_from_path env _ d (Some cached)) as [e|images] eqn:Hconv.
    + eexists _, _, _. split; [reflexivity|]. split; [done|].
      intros _. split; [done|]. by exists e.
    + eexists _, _, _. split; [reflexivity|]. split; [done|].
      intros Hfail. destruct (Hfail d (Some cached)) as [e He]. congruence.
  - destruct (find_poppler_path_run self) as (r & out & -> & Hr).
    destruct r as [found|e|]; [| |done]; simpl.
    + destruct (convert_from_path env _ d found) as [e|images] eqn:Hconv.
      * eexists _, _, _. split; [reflexivity|]. split; [done|].
        intros _. split; [done|]. exists e. by rewrite last_snoc.
      * eexists _, _, _. split; [reflexivity|]. split; [done|].
        intros Hfail. destruct (Hfail d found) as [e He]. congruence.
    + eexists _, _, _. split; [reflexivity|]. split; [done|].
      intros _. split; [done|]. exists e. by rewrite last_snoc.
Qed.


End DocumentExtractor.


(** ** Path validation *)

Section PathValidation.
Import PyStr Pathlib Utils ResumeImprover.












End PathValidation.


(** ** The image persister *)

Section ImagePersister.
Import PyStr Pathlib Utils Observe.

Lemma pretty_N_go_length (x : N) (s : string) :
  String.length s ≤ String.length (pretty_N_go x s).
Proof.
  revert s. induction (N.lt_wf_0 x) as [x _ IH]. intros s.
  destruct (decide (x = 0)%N) as [->|Hx].
  - by rewrite pretty_N_go_0.
  - rewrite pretty_N_go_step by lia.
    etrans; [|apply IH; apply N.div_lt; lia]. simpl. lia.
Qed.

Lemma pretty_small (i : nat) :
  i < 10 → pretty i = String (pretty_N_char (N.of_nat i)) "".
Proof.
  intros Hi. unfold pretty, pretty_nat, pretty, pretty_N.
  case_decide as H0.
  - by rewrite H0.
  - rewrite pretty_N_go_step by lia.
    rewrite N.div_small, N.mod_small by lia. by rewrite pretty_N_go_0.
Qed.

Lemma pretty_large (i : nat) : 10 ≤ i → 2 ≤ String.length (pretty i).
Proof.
  intros Hi. unfold pretty, pretty_nat, pretty, pretty_N.
  rewrite decide_False by lia.
  rewrite pretty_N_go_step by lia.
  rewrite pretty_N_go_step.
  - etrans; [|apply pretty_N_go_length]. simpl. lia.
  - apply N.div_str_pos. lia.
Qed.

(** The index format: one digit gets a leading zero, two digits or more
    are printed as they are. *)
Lemma format_02d_spec (i : nat) :
  (i < 10 → format_02d i = String "0" (pretty i) ∧ String.length (format_02d i) = 2)
  ∧ (10 ≤ i → format_02d i = pretty i ∧ 2 ≤ String.length (format_02d i)).
Proof.
  unfold format_02d. split; intros Hi.
  - rewrite pretty_small by done. by simpl.
  - pose proof (pretty_large i Hi) as Hlen.
    replace (2 - String.length (pretty i)) with 0 by lia. by simpl.
Qed.

Lemma save_loop_run {St} (env : Env) (output_dir base : string)
    (images : list Image) (i : nat) (saved : list string) (s : St) :
  (∀ p, p ∈ page_paths output_dir base i (List.length images) → save_error env p = None) →
  save_loop env (of_string output_dir) base i images saved s
  = (Return (saved ++ page_paths output_dir base i (List.length images)), s,
     zip_with SaveImage (page_paths output_dir base i (List.length images)) images).
Proof.
  revert i saved. induction images as [|img rest IH]; intros i saved Hsave.
  - simpl. unfold page_paths. simpl. by rewrite app_nil_r.
  - simpl. run_monad. fold (page_path output_dir base i).
    rewrite (Hsave (page_path output_dir base i)) by (unfold page_paths; simpl; left).
    rewrite IH.
    + unfold page_paths. simpl. by rewrite <- app_assoc.
    + intros p Hp. apply Hsave. unfold page_paths in *. simpl. by right.
Qed.

(** C8.  [save_images] creates the directory, then writes the images in
    order, the i-th one (counting from 1) under the name
    base_name, "_", the index in two digits at least, ".png" inside the
    directory, and returns these paths in the same order; with no images it
    only creates the directory and returns the empty list. *)
Theorem save_images_numbered {St} (env : Env) (images : list Image)
    (output_dir : string) (base_filename : option string) (s : St) :
  let base := default "page" base_filename in
  let dir := str (of_string output_dir) in
  let paths := page_paths output_dir base 1 (List.length images) in
  mkdir_error env dir = None →
  (∀ p, p ∈ paths → save_error env p = None) →
  save_images env images output_dir base_filename s
  = (Return paths, s, Mkdir dir :: zip_with SaveImage paths images)
  ∧ List.length paths = List.length images
  ∧ (∀ k img, images !! k = Some img →
       paths !! k
       = Some (str (div (of_string output_dir)
                        (base +:+ "_" +:+ format_02d (S k) +:+ ".png")))
       ∧ (S k < 10 → format_02d (S k) = String "0" (pretty (S k)))
       ∧ (10 ≤ S k → format_02d (S k) = pretty (S k)))
  ∧ (images = [] →
     save_images env images output_dir base_filename s = (Return [], s, [Mkdir dir])).
Proof.
  intros base dir paths Hmkdir Hsave.
  assert (save_images env images output_dir base_filename s
          = (Return paths, s, Mkdir dir :: zip_with SaveImage paths images)) as Hrun.
  { unfold save_images. run_monad. fold dir base. rewrite Hmkdir.
    by rewrite (save_loop_run env output_dir base images 1 [] s Hsave). }
  split; [exact Hrun|]. split; [|split].
  - unfold paths, page_paths. by rewrite length_map, length_seq.
  - intros k img Hk. apply lookup_lt_Some in Hk. split; [|split].
    + unfold paths, page_paths. rewrite list_lookup_fmap.
      rewrite lookup_seq_lt by done. reflexivity.
    + intros Hlt. by apply format_02d_spec.
    + intros Hge. by apply format_02d_spec.
  - intros ->. exact Hrun.
Qed.

Lemma save_images_numbered_witness :
  Utils.save_images Example.world [Example.page1; Example.page2] "out/pages/" None tt
  = (Return ["out/pages/page_01.png"; "out/pages/page_02.png"], tt,
     [Mkdir "out/pages";
      SaveImage "out/pages/page_01.png" Example.page1;
      SaveImage "out/pages/page_02.png" Example.page2]).
Proof.
  apply (save_images_numbered Example.world [Example.page1; Example.page2]
           "out/pages/" None tt).
  - reflexivity.
  - intros p _. reflexivity.
Defined.

End ImagePersister.

(** ** The turn-taking pipeline *)

Section Pipeline.
Import PyStr AutoGen ResumeImprover Observe.
Context (env : Env).

(** The termination predicate of the team that [create_team] builds. *)
Lemma text_team_terminated (t : RoundRobinGroupChat) (m : Message) :
  text_team t → terminated t m = true ↔ is_final m.
Proof.
  intros [_ Hcond]. unfold terminated, mentions, is_final. rewrite Hcond. simpl.
  rewrite andb_true_iff, bool_decide_eq_true, list_elem_of_singleton.
  reflexivity.
Qed.

Lemma text_team_speaker (t : RoundRobinGroupChat) (turn : nat) :
  text_team t →
  ∃ a, participants t !! (turn `mod` List.length (participants t)) = Some a
       ∧ text_roles !! (turn `mod` 3) = Some (agent_name a).
Proof.
  intros [Hnames _].
  assert (List.length (participants t) = 3) as Hlen.
  { by rewrite <- (length_map agent_name), Hnames. }
  rewrite Hlen.
  destruct (lookup_lt_is_Some_2 (participants t) (turn `mod` 3)) as [a Ha].
  { rewrite Hlen. apply Nat.mod_upper_bound. lia. }
  exists a. split; [done|].
  by rewrite <- Hnames, list_lookup_fmap, Ha.
Qed.

(** The loop, from any turn and thread: who spoke, and how it ended. *)
Lemma rounds_run (t : RoundRobinGroupChat) (fuel turn : nat) (thread : list Message) :
  text_team t →
  ∃ r replies out,
    rounds env t fuel turn thread = (r, thread ++ replies, out)
    ∧ (∀ k m, replies !! k = Some m →
         text_roles !! ((turn + k) `mod` 3) = Some (source m))
    ∧ Forall is_text_inference out
    ∧ match r with
      | Return _ =>
          ∃ earlier final, replies = earlier ++ [final]
                           ∧ is_final final ∧ Forall (λ m, ¬ is_final m) earlier
      | Hang => List.length replies = fuel ∧ Forall (λ m, ¬ is_final m) replies
      | Raise _ => List.length replies < fuel ∧ Forall (λ m, ¬ is_final m) replies
      end.
Proof.
  intros Hteam. revert turn thread.
  induction fuel as [|fuel IH]; intros turn thread; simpl.
  - exists Hang, [], []. rewrite app_nil_r. by repeat split.
  - destruct (text_team_speaker t turn Hteam) as (a & -> & Hrole).
    assert (is_text_inference (Inference (agent_name a))) as Hev.
    { simpl. eapply list_elem_of_lookup_2, Hrole. }
    run_monad. destruct (model_reply env a thread) as [e|answer]; simpl.
    + exists (Raise e), [], [Inference (agent_name a)]. rewrite app_nil_r.
      split; [done|]. split; [by intros k m [=]|]. split; [by auto|].
      simpl. split; [lia|done].
    + destruct (terminated t (TextMessage (agent_name a) answer)) eqn:Hstop.
      * exists (Return tt), [TextMessage (agent_name a) answer],
          [Inference (agent_name a)].
        split; [done|]. split; [|split; [by auto|]].
        -- intros [|k] m [=]. subst m. simpl. by rewrite Nat.add_0_r.
        -- exists [], (TextMessage (agent_name a) answer). split; [done|].
           split; [by apply (text_team_terminated t)|done].
      * destruct (IH (S turn) (thread ++ [TextMessage (agent_name a) answer]))
          as (r & replies & out & Hrun & Hwho & Hout & Hend).
        rewrite Hrun.
        exists r, (TextMessage (agent_name a) answer :: replies),
          (Inference (agent_name a) :: out).
        assert (¬ is_final (TextMessage (agent_name a) answer)) as Hnot.
        { rewrite <- (text_team_terminated t) by done. by rewrite Hstop. }
        split; [by rewrite <- app_assoc|]. split; [|split; [by constructor|]].
        -- intros [|k] m Hk.
           ++ injection Hk as <-. simpl. by rewrite Nat.add_0_r.
           ++ replace (turn + S k) with (S turn + k) by lia. by apply Hwho.
        -- destruct r as [[]|e|].
           ++ destruct Hend as (earlier & final & -> & Hfin & Hearlier).
              exists (TextMessage (agent_name a) answer :: earlier), final.
              split; [done|]. split; [done|]. by constructor.
           ++ destruct Hend as [Hlen Hall]. simpl. split; [lia|by constructor].
           ++ destruct Hend as [Hlen Hall]. simpl. split; [lia|by constructor].
Qed.

(** Fuel that suffices keeps sufficing. *)
Lemma rounds_more_fuel (t : RoundRobinGroupChat) (fuel extra turn : nat)
    (thread : list Message) :
  (rounds env t fuel turn thread).1.1 ≠ Hang →
  rounds env t (fuel + extra) turn thread = rounds env t fuel turn thread.
Proof.
  revert turn thread. induction fuel as [|fuel IH]; intros turn thread; simpl.
  - by intros [].
  - destruct (participants t !! _) as [a|]; [|done].
    run_monad. destruct (model_reply env a thread) as [e|answer]; [done|]. simpl.
    destruct (terminated t _); [done|]. intros Hend.
    rewrite IH; [done|].
    by destruct (rounds env t fuel _ _) as [[[] ?] ?].
Qed.

Lemma client_total (m : Model.ModelManager) :
  ∃ c m', Model.client m = (Return c, m', []).
Proof.
  unfold Model.client, Model._create_client. run_monad.
  destruct (Model._client m); by eexists _, _.
Qed.

Lemma load_prompt_silent (filename : string) (pm : Utils.PromptManager) :
  ∃ r pm', Utils.load_prompt env filename pm = (r, pm', []) ∧ r ≠ Hang.
Proof.
  unfold Utils.load_prompt. run_monad.
  destruct (Utils._prompt_cache pm !! filename); [by eexists _, _|].
  destruct (read_text env _) as [[]|]; by eexists _, _.
Qed.

(** Building an agent touches the model manager and the prompt manager
    only, emits nothing, and gives the agent its role name. *)
Lemma create_agents_run (self : ResumeImprover) :
  let built (create : Env → M ResumeImprover Agent) (role : string) :=
    ∃ r self', create env self = (r, self', [])
               ∧ team self' = team self ∧ r ≠ Hang
               ∧ ∀ a, r = Return a → agent_name a = role in
  built create_draft_agent "ResumeDraftAgent"
  ∧ built create_enhancement_agent "ResumeEnhancementAgent"
  ∧ built create_conciseness_agent "ResumeConcisenessAgent"
  ∧ built create_image_agent "ResumeImageAgent".
Proof.
  intros built. subst built. simpl.
  destruct (client_total (model_manager self)) as (c & m' & Hclient).
  repeat split;
    match goal with
    | |- ∃ r self', ?create env self = _ ∧ _ =>
        unfold create, on_model_manager, on_prompt_manager, zoom;
        rewrite bind_eq, Hclient; simpl; rewrite bind_eq; simpl
    end;
    match goal with
    | |- context [Utils.load_prompt env ?f ?pm] =>
        destruct (load_prompt_silent f pm) as (r & pm' & -> & Hr)
    end;
    (destruct r as [prompt|e|]; [| |done]); simpl;
    eexists _, _; (split; [reflexivity|]); (split; [done|]); (split; [done|]);
    by intros a [= <-].
Qed.

Lemma improver_ok_team (self self' : ResumeImprover) :
  team self' = team self → improver_ok self → improver_ok self'.
Proof. unfold improver_ok. by intros ->. Qed.

(** [create_team] emits nothing and, when it returns, returns the team of
    the three text roles with the marker restricted to the conciseness
    agent, which is then the cached team. *)
Lemma create_team_run (self : ResumeImprover) :
  improver_ok self →
  ∃ r self', create_team env self = (r, self', [])
             ∧ improver_ok self' ∧ r ≠ Hang
             ∧ ∀ t, r = Return t → text_team t ∧ _team (team self') = Some t.
Proof.
  intros Hok. unfold create_team. rewrite bind_eq. simpl.
  destruct (_team (team self)) as [cached|] eqn:Hcache.
  { exists (Return cached), self.
    split; [reflexivity|]. split; [done|]. split; [done|].
    intros t [= <-]. split; [|done].
    destruct Hok as [Hok _]. by rewrite Hcache in Hok. }
  destruct (create_agents_run self) as ((r1 & s1 & H1 & Ht1 & Hh1 & Hn1) & _).
  rewrite bind_eq, H1.
  destruct r1 as [a1|e|]; [| |done].
  2: { exists (Raise e), s1.
       split; [reflexivity|]. split; [by apply (improver_ok_team self)|]. done. }
  destruct (create_agents_run s1) as (_ & (r2 & s2 & H2 & Ht2 & Hh2 & Hn2) & _).
  rewrite bind_eq, H2.
  destruct r2 as [a2|e|]; [| |done].
  2: { exists (Raise e), s2.
       split; [reflexivity|]. split; [|done].
       apply (improver_ok_team self); [congruence|done]. }
  destruct (create_agents_run s2) as (_ & _ & (r3 & s3 & H3 & Ht3 & Hh3 & Hn3) & _).
  rewrite bind_eq, H3.
  destruct r3 as [a3|e|]; [| |done].
  2: { exists (Raise e), s3.
       split; [reflexivity|]. split; [|done].
       apply (improver_ok_team self); [congruence|done]. }
  unfold on_team. run_monad. eexists _, _. split; [reflexivity|].
  assert (text_team {| participants := [a1; a2; a3];
                       termination_condition :=
                         Some {| text := "FINAL";
                                 sources := Some ["ResumeConcisenessAgent"] |} |})
    as Hteam.
  { split; [|done]. simpl. by rewrite (Hn1 a1), (Hn2 a2), (Hn3 a3). }
  split; [|split; [done|]].
  - destruct Hok as [_ Himg]. split; simpl; [done|].
    by rewrite Ht3, Ht2, Ht1.
  - by intros t [= <-].
Qed.

Lemma get_image_agent_run (self : ResumeImprover) :
  improver_ok self →
  ∃ r self', get_image_agent env self = (r, self', [])
             ∧ improver_ok self' ∧ r ≠ Hang
             ∧ ∀ a, r = Return a → agent_name a = "ResumeImageAgent".
Proof.
  intros Hok. unfold get_image_agent. rewrite bind_eq. simpl.
  destruct (_image_agent (team self)) as [cached|] eqn:Hcache.
  { exists (Return cached), self.
    split; [reflexivity|]. split; [done|]. split; [done|].
    intros a [= <-]. destruct Hok as [_ Hok]. by rewrite Hcache in Hok. }
  destruct (create_agents_run self) as (_ & _ & _ & (r & s1 & H1 & Ht1 & Hh1 & Hn1)).
  rewrite bind_eq, H1.
  destruct r as [a|e|]; [| |done].
  2: { exists (Raise e), s1.
       split; [reflexivity|]. split; [by apply (improver_ok_team self)|]. done. }
  unfold on_team. run_monad. eexists _, _. split; [reflexivity|].
  split; [|split; [done|]].
  - destruct Hok as [Hteam _]. split; simpl; [|by apply Hn1].
    by rewrite Ht1.
  - intros a' [= <-]. by apply Hn1.
Qed.

(** A run of the text team on a task: the thread opens with the task, the
    agents then speak in their fixed order, and the run ends with the first
    final message. *)
Lemma group_chat_run (t : RoundRobinGroupChat) (fuel : nat) (task : string) :
  text_team t →
  ∃ r replies out,
    group_chat env t fuel (user_message task) [] = (r, user_message task :: replies, out)
    ∧ (∀ k m, replies !! k = Some m → text_roles !! (k `mod` 3) = Some (source m))
    ∧ Forall is_text_inference out
    ∧ match r with
      | Return _ =>
          ∃ earlier final, replies = earlier ++ [final]
                           ∧ is_final final ∧ Forall (λ m, ¬ is_final m) earlier
      | Hang => List.length replies = fuel ∧ Forall (λ m, ¬ is_final m) replies
      | Raise _ => List.length replies < fuel ∧ Forall (λ m, ¬ is_final m) replies
      end.
Proof.
  intros Hteam. unfold group_chat. rewrite bind_eq. simpl.
  assert (terminated t (user_message task) = false) as ->.
  { apply not_true_is_false. rewrite (text_team_terminated t) by done.
    by intros [[=] _]. }
  destruct (rounds_run t fuel 0 [user_message task] Hteam)
    as (r & replies & out & -> & Hwho & Hout & Hend).
  exists r, replies, out. by destruct r.
Qed.

(** C1.  The team that [create_team] builds has the draft, enhancement and
    conciseness agents in this order, and its termination predicate holds of
    a message exactly when the conciseness agent emitted it and it contains
    "FINAL".  In every run the agents speak in that order; the loop has
    stopped exactly when the message just emitted is such a message, none of
    the earlier messages being one; while it runs, or when the backend
    fails, no such message has been emitted.  A message of the draft or
    enhancement agent never stops the loop, whatever it contains. *)
Theorem termination_is_source_restricted (self self' : ResumeImprover)
    (t : RoundRobinGroupChat) (out0 : list event) (fuel : nat) (task : string) :
  improver_ok self →
  create_team env self = (Return t, self', out0) →
  map agent_name (participants t) = text_roles
  ∧ (∀ m, terminated t m = true ↔ is_final m)
  ∧ (∀ m, source m ≠ "ResumeConcisenessAgent" → terminated t m = false)
  ∧ ∃ r replies out,
      group_chat env t fuel (user_message task) []
      = (r, user_message task :: replies, out)
      ∧ (∀ k m, replies !! k = Some m → text_roles !! (k `mod` 3) = Some (source m))
      ∧ match r with
        | Return _ =>
            ∃ earlier final, replies = earlier ++ [final]
                             ∧ is_final final ∧ Forall (λ m, ¬ is_final m) earlier
        | Hang => List.length replies = fuel ∧ Forall (λ m, ¬ is_final m) replies
        | Raise _ => List.length replies < fuel ∧ Forall (λ m, ¬ is_final m) replies
        end.
Proof.
  intros Hok Hcreate.
  destruct (create_team_run self Hok) as (r0 & s0 & Hrun & _ & _ & Hteam).
  rewrite Hcreate in Hrun. injection Hrun as <- <- ->.
  destruct (Hteam t eq_refl) as [Ht _].
  split; [apply Ht|]. split; [intros m; by apply text_team_terminated|].
  split.
  - intros m Hsrc. apply not_true_is_false.
    rewrite (text_team_terminated t) by done. by intros [? _].
  - destruct (group_chat_run t fuel task Ht)
      as (r & replies & out & Hchat & Hwho & _ & Hend).
    by exists r, replies, out.
Qed.

Lemma last_content_result {St} (items : list StreamItem) (result : TaskResult) (s : St) :
  last_content (items ++ [ItemResult result]) s
  = (Return (content <$> last (messages result)), s, []).
Proof.
  unfold last_content. rewrite last_snoc. by destruct (last (messages result)).
Qed.

Lemma on_prompt_manager_team {A} (m : M Utils.PromptManager A) (self self' : ResumeImprover)
    (r : outcome A) (out : list event) :
  on_prompt_manager m self = (r, self', out) → team self' = team self.
Proof.
  unfold on_prompt_manager, zoom.
  destruct (m (prompt_manager self)) as [[r' pm'] out']. by intros [= _ <- _].
Qed.

(** [improve_resume_text], once the task prompt is loaded and the team is
    there, is the run of the team on the task followed by the reading of
    the last message. *)
Lemma improve_resume_text_run (self s1 s2 : ResumeImprover) (fuel : nat)
    (resume_text task_prompt : string) (t : RoundRobinGroupChat) (o1 o2 : list event) :
  on_prompt_manager (Utils.load_prompt env "resume_team_task_prompt") self
  = (Return task_prompt, s1, o1) →
  create_team env s1 = (Return t, s2, o2) →
  improve_resume_text env fuel resume_text self
  = let '(r, thread, out) :=
      group_chat env t fuel (user_message (team_task task_prompt resume_text)) [] in
    (match r with
     | Return _ => Return (content <$> last thread)
     | Raise e => Raise e
     | Hang => Hang
     end, s2, o1 ++ o2 ++ out).
Proof.
  intros Hprompt Hteam. unfold improve_resume_text, improve_resume_text_with.
  rewrite bind_eq, Hprompt, bind_eq, Hteam, bind_eq.
  unfold team_run_stream. fold (user_message (team_task task_prompt resume_text)).
  destruct (group_chat env t fuel _ []) as [[r thread] out].
  destruct r as [[]|e|]; [|done..].
  unfold stream_of. rewrite last_content_result. simpl.
  by rewrite app_nil_r.
Qed.

Lemma group_chat_more_fuel (t : RoundRobinGroupChat) (fuel extra : nat) (task : Message) :
  (group_chat env t fuel task []).1.1 ≠ Hang →
  group_chat env t (fuel + extra) task [] = group_chat env t fuel task [].
Proof.
  unfold group_chat. rewrite !bind_eq. simpl.
  destruct (terminated t task); [done|].
  intros Hend. rewrite rounds_more_fuel; [done|].
  by destruct (rounds env t fuel 0 [task]) as [[[] ?] ?].
Qed.

(** C2.  With the task prompt loaded and the team built, the task given to
    the team is the prompt, the separator and the resume text; when the
    run of the team ends, [improve_resume_text] returns the content of the
    last message of the thread, and does so with any larger bound on the
    turns; while the team runs it has no result.  Whatever produces the
    stream of the team: when the stream has no items, or when its result
    holds no messages, [improve_resume_text] returns [None], raises nothing
    and does nothing more. *)
Theorem improve_resume_text_returns_last_message (self s1 s2 : ResumeImprover)
    (fuel : nat) (resume_text task_prompt : string) (t : RoundRobinGroupChat)
    (o1 o2 : list event) :
  improver_ok self →
  on_prompt_manager (Utils.load_prompt env "resume_team_task_prompt") self
  = (Return task_prompt, s1, o1) →
  create_team env s1 = (Return t, s2, o2) →
  let task :=
    task_prompt +:+ nl +:+ nl +:+ "Original Resume Text:" +:+ nl +:+ resume_text in
  (∃ r replies out,
     group_chat env t fuel (user_message task) [] = (r, user_message task :: replies, out)
     ∧ improve_resume_text env fuel resume_text self
       = (match r with
          | Return _ => Return (Some (content (List.last replies (user_message task))))
          | Raise e => Raise e
          | Hang => Hang
          end, s2, o1 ++ o2 ++ out)
     ∧ (r ≠ Hang → ∀ extra,
          improve_resume_text env (fuel + extra) resume_text self
          = improve_resume_text env fuel resume_text self))
  ∧ (∀ run_stream stream s3 o3,
       run_stream t task s2 = (Return stream, s3, o3) →
       stream = [] ∨ (∃ items, stream = items ++ [ItemResult {| messages := [] |}]) →
       improve_resume_text_with run_stream env resume_text self
       = (Return None, s3, o1 ++ o2 ++ o3)).
Proof.
  intros Hok Hprompt Hteam task.
  assert (improver_ok s1) as Hok1.
  { eapply improver_ok_team; [|exact Hok]. eapply on_prompt_manager_team, Hprompt. }
  destruct (create_team_run s1 Hok1) as (r0 & s0 & Hrun & _ & _ & Ht).
  rewrite Hteam in Hrun. injection Hrun as <- <- ->.
  destruct (Ht t eq_refl) as [Htext _].
  split.
  - destruct (group_chat_run t fuel task Htext)
      as (r & replies & out & Hchat & _ & _ & _).
    exists r, replies, out. split; [exact Hchat|].
    pose proof (improve_resume_text_run self s1 s2 fuel resume_text task_prompt
                  t o1 [] Hprompt Hteam) as Hrun.
    unfold team_task in Hrun. fold task in Hrun. split.
    + rewrite Hrun, Hchat. destruct r as [[]|e|]; [|done..].
      do 3 f_equal. change (user_message task :: replies)
        with ([user_message task] ++ replies).
      destruct replies as [|m replies _] using rev_ind; [done|].
      by rewrite app_assoc, last_snoc, List.last_last.
    + intros Hr extra.
      rewrite Hrun, (improve_resume_text_run self s1 s2 (fuel + extra) resume_text
                       task_prompt t o1 [] Hprompt Hteam).
      unfold team_task. fold task.
      rewrite group_chat_more_fuel; [done|]. by rewrite Hchat.
  - intros run_stream stream s3 o3 Hstream Hempty.
    unfold improve_resume_text_with.
    rewrite bind_eq, Hprompt, bind_eq, Hteam, bind_eq.
    unfold team_task. fold task. rewrite Hstream.
    destruct Hempty as [->|[items ->]].
    + simpl. by rewrite app_nil_r.
    + rewrite last_content_result. simpl. by rewrite app_nil_r.
Qed.

(** With the team of this program the text stage never returns an empty
    result: the message that ends the run contains the marker.  The empty
    result that [improve_resume] guards against can only come from a text
    stage that was replaced. *)
Lemma improve_resume_text_has_text (self s2 : ResumeImprover) (fuel : nat)
    (resume_text : string) (r : option string) (out : list event) :
  improver_ok self →
  improve_resume_text env fuel resume_text self = (Return r, s2, out) →
  has_text r = true.
Proof.
  intros Hok.
  destruct (on_prompt_manager (Utils.load_prompt env "resume_team_task_prompt") self)
    as [[r1 s1] o1] eqn:Hprompt.
  destruct r1 as [task_prompt|e|].
  2,3: unfold improve_resume_text, improve_resume_text_with; by rewrite bind_eq, Hprompt.
  assert (improver_ok s1) as Hok1.
  { eapply improver_ok_team; [|exact Hok]. eapply on_prompt_manager_team, Hprompt. }
  destruct (create_team_run s1 Hok1) as (r0 & s0 & Hteam & _ & _ & Ht).
  destruct r0 as [t|e|].
  2,3: unfold improve_resume_text, improve_resume_text_with; by rewrite bind_eq, Hprompt, bind_eq, Hteam.
  destruct (Ht t eq_refl) as [Htext _].
  rewrite (improve_resume_text_run self s1 s0 fuel resume_text task_prompt t o1 []
             Hprompt Hteam).
  destruct (group_chat_run t fuel (team_task task_prompt resume_text) Htext)
    as (r' & replies & out' & -> & _ & _ & Hend).
  destruct r' as [[]|e|]; [|done..].
  destruct Hend as (earlier & final & -> & [_ Hmarker] & _).
  intros [= <- _ _].
  rewrite app_comm_cons, last_snoc. simpl. unfold truthy.
  rewrite bool_decide_false; [done|].
  intros Hempty. by rewrite Hempty in Hmarker.
Qed.

End Pipeline.

Lemma termination_is_source_restricted_witness :
  Observe.improver_ok Example.improver
  ∧ ∃ t self',
      ResumeImprover.create_team Example.world Example.improver = (Return t, self', [])
      ∧ map agent_name (AutoGen.participants t) = Observe.text_roles
      ∧ AutoGen.terminated t (AutoGen.TextMessage "ResumeDraftAgent" "Draft, not FINAL yet") = false.
Proof.
  assert (Observe.improver_ok Example.improver) as Hok by (by vm_compute).
  split; [exact Hok|].
  let run := eval vm_compute in
    (ResumeImprover.create_team Example.world Example.improver) in
  match run with
  | (Return ?t, ?s, _) =>
      exists t, s;
      destruct (termination_is_source_restricted Example.world Example.improver
                  s t [] 10 "resume" Hok)
        as (Hroles & _ & Hother & _); [by vm_compute|]
  end.
  split; [by vm_compute|]. split; [exact Hroles|]. by apply Hother.
Defined.

Lemma improve_resume_text_returns_last_message_witness :
  Observe.improver_ok Example.improver
  ∧ (∀ extra,
       ResumeImprover.improve_resume_text Example.world (6 + extra)
         "Experience: built tools." Example.improver
       = ResumeImprover.improve_resume_text Example.world 6 "Experience: built tools."
           Example.improver)
  ∧ (ResumeImprover.improve_resume_text Example.world 6 "Experience: built tools."
       Example.improver).1.1
    = Return (Some "Experience: built tools. FINAL")
  ∧ (ResumeImprover.improve_resume_text_with (λ _ _, ret []) Example.world
       "Experience: built tools." Example.improver).1.1
    = Return None.
Proof.
  assert (Observe.improver_ok Example.improver) as Hok by (by vm_compute).
  pose (s1 := (ResumeImprover.on_prompt_manager
                 (Utils.load_prompt Example.world "resume_team_task_prompt")
                 Example.improver).1.2).
  assert (ResumeImprover.on_prompt_manager
            (Utils.load_prompt Example.world "resume_team_task_prompt") Example.improver
          = (Return "Improve this resume. Say FINAL when done.", s1, [])) as Hprompt
    by (by vm_compute).
  destruct (ResumeImprover.create_team Example.world s1) as [[rt s2] o2] eqn:Hteam.
  pose proof (f_equal (λ x : _ * _ * _, (x.1.1, x.2)) Hteam) as Hrt.
  vm_compute in Hrt. injection Hrt as <- <-.
  match type of Hteam with
  | _ = (Return ?t, _, _) =>
      destruct (improve_resume_text_returns_last_message Example.world
                  Example.improver s1 s2 6 "Experience: built tools."
                  "Improve this resume. Say FINAL when done." t [] [] Hok Hprompt Hteam)
        as [(r & replies & out & Hchat & Hrun & Hmore) Hnone]
  end.
  split; [exact Hok|]. split; [|split].
  - apply Hmore. intros ->. vm_compute in Hchat. discriminate Hchat.
  - by vm_compute.
  - rewrite (Hnone (λ _ _, ret []) [] s2 []); [reflexivity|reflexivity|by left].
Defined.

(** ** The top-level workflow *)

Section Workflow.
Import PyStr Pathlib AutoGen ResumeImprover Observe.
Context (env : Env).

Lemma emits_ret {St A} (P : event → Prop) (a : A) : emits (St:=St) P (ret a).
Proof. intros s. by constructor. Qed.

Lemma emits_raise {St A} (P : event → Prop) (e : exn) : emits (St:=St) (A:=A) P (raise e).
Proof. intros s. by constructor. Qed.

Lemma emits_get {St} (P : event → Prop) : emits (St:=St) P get.
Proof. intros s. by constructor. Qed.

Lemma emits_put {St} (P : event → Prop) (s' : St) : emits P (put s').
Proof. intros s. by constructor. Qed.

Lemma emits_print {St} (line : string) : emits (St:=St) is_print (print line).
Proof. intros s. by repeat constructor. Qed.

Lemma emits_bind {St A B} (P : event → Prop) (m : M St A) (k : A → M St B) :
  emits P m → (∀ a, emits P (k a)) → emits P (bind m k).
Proof.
  intros Hm Hk s. specialize (Hm s). unfold bind.
  destruct (m s) as [[[a|e|] s1] out1]; simpl in *; try done.
  specialize (Hk a s1). destruct (k a s1) as [[r s2] out2]. simpl in *.
  by apply Forall_app.
Qed.

Lemma emits_try_except {St A} (P : event → Prop) (body : M St A)
    (catches : exn → bool) (handler : exn → M St A) :
  emits P body → (∀ e, emits P (handler e)) → emits P (try_except body catches handler).
Proof.
  intros Hm Hk s. specialize (Hm s). unfold try_except.
  destruct (body s) as [[[a|e|] s1] out1]; simpl in *; try done.
  destruct (catches e); [|done].
  specialize (Hk e s1). destruct (handler e s1) as [[r s2] out2]. simpl in *.
  by apply Forall_app.
Qed.

Lemma emits_zoom {St Sub A} (P : event → Prop) (proj : St → Sub)
    (upd : Sub → St → St) (m : M Sub A) :
  emits P m → emits P (zoom proj upd m).
Proof.
  intros Hm s. specialize (Hm (proj s)). unfold zoom.
  by destruct (m (proj s)) as [[r sub] out].
Qed.

(** Decompose a computation along its structure. *)
Ltac emits_step :=
  first
    [ apply emits_ret | apply emits_raise | apply emits_get | apply emits_put
    | apply emits_print | apply emits_zoom
    | apply emits_bind; [|intros ?]
    | apply emits_try_except; [|intros ?]
    | match goal with
      | |- emits _ (match ?x with _ => _ end) => destruct x
      | |- emits _ (if ?b then _ else _) => destruct b
      end ].

Lemma concat_pages_emits {St} (acc : string) (pages : list (exn + string)) :
  emits (St:=St) is_print (Utils.concat_pages acc pages).
Proof.
  revert acc. induction pages as [|[e|t] rest IH]; intros acc; simpl.
  - apply emits_ret.
  - apply emits_raise.
  - apply IH.
Qed.

Lemma find_pdftoppm_emits {St} (paths : list string) :
  emits (St:=St) is_print (Utils.find_pdftoppm env paths).
Proof.
  induction paths as [|path rest IH]; simpl; [apply emits_ret|].
  unfold Path_exists. repeat first [apply IH | emits_step].
Qed.

(** Without an output directory, processing a PDF only prints. *)
Lemma process_pdf_emits (pdf_path : string) :
  emits is_print (Utils.process_pdf env pdf_path None).
Proof.
  unfold Utils.process_pdf, Utils.validate_pdf_path, Utils.on_pdf_processor,
    Utils.extract_text, Utils.convert_to_images, Utils._find_poppler_path, Path_exists.
  repeat first [apply concat_pages_emits | apply find_pdftoppm_emits | emits_step].
Qed.

Lemma get_pdf_path_run (self : ResumeImprover) :
  ∃ r out, get_pdf_path env self = (r, self, out) ∧ Forall is_print out.
Proof.
  unfold get_pdf_path. run_monad.
  destruct (argv env) as [|? [|arg ?]]; simpl;
    try destruct (stdin_line env) as [line|]; simpl;
    try destruct (truthy _); simpl; eexists _, _; split; try reflexivity;
    by repeat constructor.
Qed.

Lemma process_pdf_file_emits (pdf_path : string) :
  emits is_print (process_pdf_file env pdf_path).
Proof.
  unfold process_pdf_file, on_resume_processor.
  apply emits_bind; [apply emits_print|intros _].
  apply emits_bind; [apply emits_print|intros _].
  apply emits_bind; [apply emits_zoom, process_pdf_emits|].
  intros [[text images] saved]. repeat emits_step.
Qed.

(** What [process_pdf_file] does with what [process_pdf] returned. *)
Lemma process_pdf_file_run (pdf_path text : string) (images : list Image)
    (saved : list string) (self s1 : ResumeImprover) (o1 : list event) :
  on_resume_processor (Utils.process_pdf env pdf_path None) self
  = (Return (text, images, saved), s1, o1) →
  strip text = "" ∨ images = [] →
  process_pdf_file env pdf_path self
  = (Raise (ValueError (if bool_decide (strip text = "")
                        then "No text could be extracted from the PDF"
                        else "No images could be extracted from the PDF")),
     s1,
     [Print ("Processing resume: " +:+ pdf_path); Print "Extracting text content..."]
     ++ o1).
Proof.
  intros Hproc Hempty. unfold process_pdf_file. run_monad. rewrite Hproc.
  unfold truthy. case_bool_decide as Htext; simpl.
  - by rewrite app_nil_r.
  - destruct Hempty as [?| ->]; [done|]. simpl. by rewrite app_nil_r.
Qed.

(** C3.  When the extractor returns, without raising, a text that is empty
    once stripped or an empty list of images, [process_pdf_file] raises
    [ValueError] with the message for the text first, for the images
    otherwise.  The run of the command line interface then ends with that
    error printed; it has done nothing but print, and it is the same
    whatever the improvement stage would do: no inference call is made. *)
Theorem empty_extraction_halts (pdf_path text : string) (images : list Image)
    (saved : list string) (self s1 : ResumeImprover) (o1 : list event) :
  on_resume_processor (Utils.process_pdf env pdf_path None) self
  = (Return (text, images, saved), s1, o1) →
  strip text = "" ∨ images = [] →
  let msg := if bool_decide (strip text = "")
             then "No text could be extracted from the PDF"
             else "No images could be extracted from the PDF" in
  let before :=
    [Print ("Processing resume: " +:+ pdf_path); Print "Extracting text content..."]
    ++ o1 in
  process_pdf_file env pdf_path self = (Raise (ValueError msg), s1, before)
  ∧ ∀ improve given o0,
      get_pdf_path env self = (Return given, self, o0) →
      validate_pdf_file env given self = (Return pdf_path, self, []) →
      run_with improve env self
      = (Return tt, s1, o0 ++ before ++ [Print ("Error: " +:+ msg)])
      ∧ Forall is_print (o0 ++ before ++ [Print ("Error: " +:+ msg)]).
Proof.
  intros Hproc Hempty msg before.
  pose proof (process_pdf_file_run pdf_path text images saved self s1 o1 Hproc Hempty)
    as Hfile. fold msg before in Hfile.
  split; [exact Hfile|]. intros improve given o0 Hget Hvalid. split.
  - unfold run_with, try_except.
    rewrite bind_eq, Hget, bind_eq, Hvalid, bind_eq, Hfile. simpl.
    by rewrite <- app_assoc.
  - destruct (get_pdf_path_run self) as (r & out & Hrun & Hprints).
    rewrite Hget in Hrun. injection Hrun as <- <-.
    pose proof (process_pdf_file_emits pdf_path self) as Hout.
    rewrite Hfile in Hout. simpl in Hout.
    apply Forall_app. split; [done|]. apply Forall_app. split; [done|].
    by repeat constructor.
Qed.

(** C4.  When the text stage returns no result, [None] or the empty
    string, [improve_resume] prints the failure and returns [None]: state
    and events are those of the text stage, whatever the image stage would
    do, so the image stage is not invoked.  The run of the command line
    interface then reports that nothing was generated: everything it did
    besides printing was done by the text stage, and unless the text stage
    itself exported, no export was attempted. *)
Theorem no_text_result_halts
    (text_stage : string → M ResumeImprover (option string))
    (image_stage : string → Image → M ResumeImprover (option string))
    (resume_text : string) (resume_image : Image) (self s1 : ResumeImprover)
    (r : option string) (o1 : list event) :
  text_stage resume_text self = (Return r, s1, o1) →
  has_text r = false →
  let stage_trace :=
    [Print "Step 1: Improving resume text content..."] ++ o1
    ++ [Print "❌ Failed to improve resume text content"] in
  improve_resume_with text_stage image_stage resume_text resume_image self
  = (Return None, s1, stage_trace)
  ∧ ∀ start given pdf_path rest o0 o2,
      get_pdf_path env start = (Return given, start, o0) →
      validate_pdf_file env given start = (Return pdf_path, start, []) →
      process_pdf_file env pdf_path start
      = (Return (resume_text, resume_image :: rest), self, o2) →
      let trace :=
        o0 ++ o2
        ++ [Print (nl +:+ "Starting resume improvement process...");
            Print "The AI agents will now work together to improve your resume.";
            Print (repeat "-" 60)]
        ++ stage_trace
        ++ [Print (nl +:+ "❌ Error: No improved resume was generated by the agents.");
            Print "Please check your model configuration and try again."] in
      run_with (improve_resume_with text_stage image_stage) env start
      = (Return tt, s1, trace)
      ∧ Forall (λ ev, is_print ev ∨ ev ∈ o1) trace
      ∧ (Forall (λ ev, ¬ is_export ev) o1 → Forall (λ ev, ¬ is_export ev) trace).
Proof.
  intros Htext Hnone stage_trace.
  assert (improve_resume_with text_stage image_stage resume_text resume_image self
          = (Return None, s1, stage_trace)) as Hstage.
  { unfold improve_resume_with. run_monad. by rewrite Htext, Hnone. }
  split; [exact Hstage|].
  intros start given pdf_path rest o0 o2 Hget Hvalid Hfile trace.
  assert (Forall (λ ev, is_print ev ∨ ev ∈ o1) trace) as Hall; [|split; [|split]].
  3: exact Hall.
  3: { intros Hquiet. eapply Forall_impl; [exact Hall|].
       intros ev [Hprint|Hin].
       - destruct ev; simpl in *; tauto.
       - rewrite Forall_forall in Hquiet. by apply Hquiet. }
  2: { unfold run_with, try_except.
       rewrite bind_eq, Hget, bind_eq, Hvalid, bind_eq, Hfile. run_monad.
       rewrite Hstage. subst trace stage_trace. simpl.
       by rewrite <- ?app_assoc. }
  - destruct (get_pdf_path_run start) as (r0 & out & Hrun & Hprints).
    rewrite Hget in Hrun. injection Hrun as <- <-.
    pose proof (process_pdf_file_emits pdf_path start) as Hout.
    rewrite Hfile in Hout. simpl in Hout.
    subst trace stage_trace. rewrite !Forall_app.
    split; [by eapply Forall_impl; [exact Hprints|left]|].
    split; [by eapply Forall_impl; [exact Hout|left]|].
    split; [by repeat constructor; left|].
    split; [|by repeat constructor; left].
    split; [by repeat constructor; left|].
    split; [|by repeat constructor; left].
    apply Forall_forall. intros ev Hev. by right.
Qed.

End Workflow.

Lemma empty_extraction_halts_witness :
  ∃ s1 out,
    ResumeImprover.run Example.scan_world 10 Example.improver = (Return tt, s1, out)
    ∧ Forall Observe.is_print out
    ∧ last out = Some (Print "Error: No text could be extracted from the PDF").
Proof.
  let extracted := eval vm_compute in
    (ResumeImprover.on_resume_processor
       (Utils.process_pdf Example.scan_world "cv/scan.pdf" None) Example.improver) in
  match extracted with
  | (Return (?text, ?images, ?saved), ?s1, ?o1) =>
      destruct (empty_extraction_halts Example.scan_world "cv/scan.pdf" text images
                  saved Example.improver s1 o1) as [_ Hrun];
        [by vm_compute|left; by vm_compute|];
      destruct (Hrun (ResumeImprover.improve_resume Example.scan_world 10)
                  "cv/scan.pdf" []) as [Heq Hprints];
        [by vm_compute|by vm_compute|];
      exists s1; eexists; split; [exact Heq|]; split; [exact Hprints|by vm_compute]
  end.
Defined.

Lemma no_text_result_halts_witness :
  ResumeImprover.improve_resume_with
    (λ _, ret None) (ResumeImprover.generate_resume_image Example.world)
    "Experience: built tools." Example.page1 Example.improver
  = (Return None, Example.improver,
     [Print "Step 1: Improving resume text content...";
      Print "❌ Failed to improve resume text content"]).
Proof.
  apply (no_text_result_halts Example.world (λ _, ret None)
           (ResumeImprover.generate_resume_image Example.world)
           "Experience: built tools." Example.page1 Example.improver Example.improver
           None []).
  - reflexivity.
  - reflexivity.
Defined.

(** ** The model at work on the concrete world *)

Section Examples.
Import Example Observe.

(** A full run: two rounds of the text team, the draft agent's mention of
    the marker notwithstanding, then the image stage and the export. *)
Example run_on_resume :
  let '(r, _, out) := ResumeImprover.run world 10 improver in
  r = Return tt
  ∧ asked out = ["ResumeDraftAgent"; "ResumeEnhancementAgent"; "ResumeConcisenessAgent";
                 "ResumeDraftAgent"; "ResumeEnhancementAgent"; "ResumeConcisenessAgent";
                 "ResumeImageAgent"]
  ∧ exported out = ["cv/resume_improved.pdf"].
Proof. by vm_compute. Qed.

(** Five turns are not enough for this world: the loop is still running. *)
Example run_out_of_turns :
  (ResumeImprover.run world 5 improver).1.1 = Hang.
Proof. by vm_compute. Qed.

(** A scan without text stops the run before any agent is asked. *)
Example run_on_scan :
  let '(r, _, out) := ResumeImprover.run scan_world 10 improver in
  r = Return tt ∧ asked out = [] ∧ exported out = []
  ∧ last out = Some (Print "Error: No text could be extracted from the PDF").
Proof. by vm_compute. Qed.

(** Existence is checked before the extension, and the extension without
    regard to case. *)
Example validate_pdf_path_cases :
  (Utils.validate_pdf_path world "cv/missing.txt" tt).1.1
  = Raise (FileNotFoundError "File not found: cv/missing.txt")
  ∧ (Utils.validate_pdf_path world "cv/notes.txt" tt).1.1
    = Raise (ValueError "File is not a PDF: cv/notes.txt")
  ∧ (Utils.validate_pdf_path world "cv/resume.PDF" tt).1.1
    = Return (Pathlib.of_string "cv/resume.PDF").
Proof. by vm_compute. Qed.

(** An existing file that is no PDF: empty results and warnings. *)
Example extract_from_notes :
  (Utils.extract_text world "cv/notes.txt" (Utils.new_PDFProcessor 300)).1.1 = Return ""
  ∧ (Utils.convert_to_images world "cv/notes.txt" None (Utils.new_PDFProcessor 300)).1.1
    = Return []
  ∧ (Utils.extract_text world "cv/missing.pdf" (Utils.new_PDFProcessor 300)).1.1
    = Raise (FileNotFoundError "PDF file not found: cv/missing.pdf").
Proof. by vm_compute. Qed.

(** White space outside ASCII is stripped, and characters are counted, not
    bytes. *)
Example strip_and_len_cases :
  PyStr.strip (blanks +:+ "Hello" +:+ blanks) = "Hello"
  ∧ PyStr.strip blanks = ""
  ∧ PyStr.len "Résumé ✓" = 8
  ∧ String.length "Résumé ✓" = 12.
Proof. by vm_compute. Qed.

(** A typed line of blanks is no path; the end of the input is reported by
    the catch-all clause of [run]. *)
Example run_without_argument :
  (ResumeImprover.get_pdf_path (typing_world (Some blanks)) improver).1.1
  = Raise (ValueError "No file path provided")
  ∧ (ResumeImprover.get_pdf_path (typing_world (Some " cv/resume.PDF ")) improver).1.1
    = Return "cv/resume.PDF"
  ∧ (ResumeImprover.run (typing_world None) 10 improver).2
    = [Print "Enter the path to your resume PDF: ";
       Print "Error processing resume: EOF when reading a line";
       Print "Please ensure you have all required dependencies installed.";
       Print "Run: uv pip install -r requirements.txt"].
Proof. by vm_compute. Qed.

(** A name that is too long: the command line reports it as not found, as
    [os.path.exists] denies it. *)
Example run_on_long_name :
  (ResumeImprover.run
     {| argv := ["resumeimprover.py"; long_name]; stdin_line := None;
        os_name := "posix"; venv_bin := None; module_dir := "app";
        path_exists := path_exists strict_world; stat_error := stat_error strict_world;
        read_text := read_text world; pdf_pages := pdf_pages world;
        convert_from_path := convert_from_path world;
        mkdir_error := mkdir_error world; save_error := save_error world;
        model_reply := model_reply world; from_string_error := from_string_error world |}
     10 improver).2
  = [Print ("Error: File '" +:+ long_name +:+ "' not found")].
Proof. by vm_compute. Qed.

(** The output path resolver. *)
Example generate_output_filename_cases :
  Utils.generate_output_filename "resume.pdf" None = "resume_improved.pdf"
  ∧ Utils.generate_output_filename "a/b/resume.pdf" None = "a/b/resume_improved.pdf".
Proof. by vm_compute. Qed.

End Examples.

(** * Further properties of the code *)

(** ** model.py: loading, validity and updates *)

Section ManagerProperties.
Import Model Observe.

(** X1.  Whatever the manager does keeps its configuration valid: after
    [update_config], successful or not, and after [client], the stored
    configuration still passes the checks of [__post_init__], and the number
    of clients built never decreases.  An update that names no field
    succeeds and keeps the configuration; its only effect is to drop the
    cached client. *)
Theorem manager_config_stays_valid (m : ModelManager) (kwargs : gmap string string) :
  post_init (_config m) = None →
  post_init (_config (update_config kwargs m).1.2) = None
  ∧ post_init (_config (client m).1.2) = None
  ∧ constructed m ≤ constructed (update_config kwargs m).1.2
  ∧ constructed m ≤ constructed (client m).1.2
  ∧ update_config ∅ m
    = (Return tt, {| _config := _config m; _client := None;
                     constructed := constructed m |}, []).
Proof.
  intros Hvalid.
  assert (post_init (_config (client m).1.2) = None
          ∧ constructed m ≤ constructed (client m).1.2) as [Hc Hn].
  { destruct (_client m) as [c|] eqn:Hcache.
    - by rewrite (client_cached m c Hcache).
    - rewrite (client_fresh m Hcache). simpl. split; [done|lia]. }
  split; [|split; [exact Hc|split; [|split; [exact Hn|]]]].
  - rewrite update_config_unfold.
    case_bool_decide; [|exact Hvalid].
    destruct (post_init (merge (_config m) kwargs)) eqn:Hmerged;
      [exact Hvalid|exact Hmerged].
  - rewrite update_config_unfold.
    case_bool_decide; [|reflexivity].
    destruct (post_init (merge (_config m) kwargs)); reflexivity.
  - rewrite update_config_unfold.
    rewrite bool_decide_true by (rewrite dom_empty_L; apply set_Forall_empty).
    assert (merge (_config m) ∅ = _config m) as ->.
    { unfold merge. rewrite !lookup_empty. simpl. destruct (_config m). reflexivity. }
    rewrite Hvalid. reflexivity.
Qed.

Lemma manager_config_stays_valid_witness :
  post_init (_config (update_config Example.new_fields Example.cached_manager).1.2) = None
  ∧ post_init (_config (update_config Example.bad_fields Example.cached_manager).1.2) = None.
Proof.
  split.
  - apply (manager_config_stays_valid Example.cached_manager Example.new_fields).
    reflexivity.
  - apply (manager_config_stays_valid Example.cached_manager Example.bad_fields).
    reflexivity.
Defined.

(** X2.  Loading from the environment: without a non-empty key and a
    non-empty endpoint it fails with the message that names both variables;
    with them, an absent version or deployment variable takes its default,
    while a variable that is present but empty is rejected by the record's
    own check.  A configuration that was loaded is valid. *)
Theorem load_config_from_env_cases (environ : gmap string string) :
  let key := environ !! "AZURE_OPENAI_API_KEY" in
  let ep := environ !! "AZURE_OPENAI_ENDPOINT" in
  let ver := environ !! "AZURE_OPENAI_API_VERSION" in
  let dep := environ !! "AZURE_OPENAI_DEPLOYMENT_NAME" in
  (default "" key = "" ∨ default "" ep = "" →
     _load_config_from_env environ
     = inl (ValueError ("Please set Azure Open AI Endpoint Details in your environment variables. "
                        +:+ "Required: AZURE_OPENAI_API_KEY, AZURE_OPENAI_ENDPOINT")))
  ∧ (default "" key ≠ "" ∧ default "" ep ≠ "" →
       (ver = Some "" →
          _load_config_from_env environ
          = inl (ValueError "AZURE_OPENAI_API_VERSION is required"))
       ∧ (ver ≠ Some "" → dep = Some "" →
            _load_config_from_env environ
            = inl (ValueError "AZURE_OPENAI_DEPLOYMENT_NAME is required"))
       ∧ (ver ≠ Some "" → dep ≠ Some "" →
            _load_config_from_env environ
            = inr {| api_key := default "" key; endpoint := default "" ep;
                     api_version := default "2025-01-01" ver;
                     deployment_name := default "gpt-4o" dep |}))
  ∧ (∀ c, _load_config_from_env environ = inr c → post_init c = None)
  ∧ (∀ mgr, new_ModelManager None environ = inr mgr →
       post_init (_config mgr) = None ∧ _client mgr = None).
Proof.
  intros key ep ver dep.
  assert (∀ c, _load_config_from_env environ = inr c → post_init c = None) as Hvalid.
  { intros c. unfold _load_config_from_env, new_ModelConfig.
    destruct (_ || _); [done|].
    destruct (post_init _) eqn:Hpost; [done|]. by intros [= <-]. }
  split; [|split; [|split; [exact Hvalid|]]].
  - intros Hmissing. unfold _load_config_from_env. fold key ep.
    by destruct Hmissing as [-> | ->]; rewrite ?orb_true_r.
  - intros [Hkey Hep]. unfold _load_config_from_env, new_ModelConfig, post_init.
    fold key ep ver dep. simpl.
    rewrite !bool_decide_false by done. simpl.
    split; [|split].
    + by intros ->.
    + intros Hver ->. simpl. destruct ver as [[|]|]; done.
    + intros Hver Hdep.
      destruct ver as [[|]|], dep as [[|]|]; done.
  - intros mgr. unfold new_ModelManager.
    destruct (_load_config_from_env environ) as [e|c] eqn:Hload; [done|].
    intros [= <-]. simpl. split; [by apply Hvalid|done].
Qed.



Lemma merge_merge (c : ModelConfig) (first second : gmap string string) :
  merge (merge c first) second = merge c (second ∪ first).
Proof.
  unfold merge. simpl. f_equal; rewrite lookup_union;
    by destruct (second !! _), (first !! _).
Qed.

(** X4.  Updates compose: two updates that both succeed leave the manager
    exactly as the single update with both sets of fields, the later ones
    winning, would. *)
Theorem update_config_composes (m m1 m2 : ModelManager)
    (first second : gmap string string) (o1 o2 : list event) :
  update_config first m = (Return tt, m1, o1) →
  update_config second m1 = (Return tt, m2, o2) →
  update_config (second ∪ first) m = (Return tt, m2, []).
Proof.
  rewrite !update_config_unfold.
  case_bool_decide as Hk1; [|done].
  destruct (post_init (merge (_config m) first)) eqn:Hp1; [done|].
  intros [= <- <-]. simpl.
  case_bool_decide as Hk2; [|done].
  rewrite merge_merge.
  destruct (post_init (merge (_config m) (second ∪ first))) eqn:Hp2; [done|].
  intros [= <- <-].
  rewrite bool_decide_true; [done|].
  rewrite dom_union_L. intros k [?|?]%elem_of_union; auto.
Qed.

Lemma update_config_composes_witness :
  update_config ({[ "api_version" := "2025-03-01" ]} ∪ Example.new_fields)
    Example.cached_manager
  = (Return tt,
     {| _config := {| api_key := "new-key";
                      endpoint := "https://test.openai.azure.com/";
                      api_version := "2025-03-01";
                      deployment_name := "gpt-4-turbo" |};
        _client := None; constructed := 1 |}, []).
Proof.
  eapply (update_config_composes Example.cached_manager _ _ Example.new_fields
            {[ "api_version" := "2025-03-01" ]} [] []).
  - by vm_compute.
  - by vm_compute.
Defined.

End ManagerProperties.

(** ** utils.py: prompts, extraction, conversion, saving, paths *)

Section StringFacts.
Import PyStr.

Lemma append_cons (x : ascii) (a b : string) :
  String x a +:+ b = String x (a +:+ b).
Proof. reflexivity. Qed.

Lemma append_assoc (a b c : string) : (a +:+ b) +:+ c = a +:+ (b +:+ c).
Proof. induction a as [|x a IH]; [done|]. by rewrite !append_cons, IH. Qed.

Lemma append_nil_r (a : string) : a +:+ "" = a.
Proof. induction a as [|x a IH]; [done|]. by rewrite append_cons, IH. Qed.

Local Arguments isspace : simpl never.

Lemma lstrip_no_leading_space (s : string) : Observe.no_leading_space (lstrip s).
Proof.
  assert (∀ n s, String.length s ≤ n → Observe.no_leading_space (lstrip s)) as Hall;
    [|by apply (Hall (String.length s))].
  clear s. induction n as [|n IH]; intros [|a s1] Hlen; simpl in *; try done; [lia|].
  destruct (isspace (String a "")) eqn:Ha; [apply IH; lia|].
  destruct s1 as [|b s2]; [done|]. simpl in Hlen.
  destruct (isspace (String a (String b ""))) eqn:Hb; [apply IH; lia|].
  destruct s2 as [|c s3]; [done|]. simpl in Hlen.
  destruct (isspace (String a (String b (String c "")))) eqn:Hc; [apply IH; lia|].
  done.
Qed.

Lemma no_leading_space_lstrip (s : string) :
  Observe.no_leading_space s → lstrip s = s.
Proof.
  destruct s as [|a [|b [|c s3]]]; simpl; try done.
  - by intros [-> _].
  - by intros (-> & -> & _).
  - by intros (-> & -> & ->).
Qed.

Lemma rstrip_cons_inv (s r : string) (b : ascii) :
  rstrip s = String b r → ∃ s', s = String b s' ∧ r = rstrip s'.
Proof.
  destruct s as [|a s']; simpl; [done|].
  destruct (isspace _); [done|]. intros [= -> <-]. by exists s'.
Qed.

Lemma no_leading_space_rstrip (s : string) :
  Observe.no_leading_space s → Observe.no_leading_space (rstrip s).
Proof.
  destruct s as [|a s1]; simpl; [done|]. intros [Ha Hrest].
  destruct (isspace (String a (rstrip s1))); [done|].
  simpl. split; [done|].
  destruct (rstrip s1) as [|b r2] eqn:Hr1; [done|].
  apply rstrip_cons_inv in Hr1 as (s2 & -> & ->).
  destruct Hrest as [Hb Hrest]. split; [done|].
  destruct (rstrip s2) as [|c r3] eqn:Hr2; [done|].
  by apply rstrip_cons_inv in Hr2 as (s3 & -> & ->).
Qed.

Lemma rstrip_rstrip (s : string) : rstrip (rstrip s) = rstrip s.
Proof.
  induction s as [|c s IH]; simpl; [done|].
  destruct (isspace (String c (rstrip s))) eqn:Hc; simpl; [done|].
  by rewrite IH, Hc.
Qed.

(** Stripping twice is stripping once. *)
Lemma strip_strip (s : string) : strip (strip s) = strip s.
Proof.
  unfold strip.
  rewrite (no_leading_space_lstrip (rstrip (lstrip s))).
  - apply rstrip_rstrip.
  - apply no_leading_space_rstrip, lstrip_no_leading_space.
Qed.

End StringFacts.

Section PromptLoader.
Import PyStr Pathlib Utils.

(** X5.  A prompt that was loaded is served from the cache: the call prints
    nothing, keeps the directory and the entries of other names, and any
    later call for the same name returns the same text without touching the
    manager, whatever has become of the file.  A text that was not in the
    cache is the content of the file with the white space at both ends
    removed, and stripping it again changes nothing. *)
Theorem load_prompt_caches (env : Env) (filename content : string)
    (self self' : PromptManager) (out : list event) :
  load_prompt env filename self = (Return content, self', out) →
  out = []
  ∧ prompts_dir self' = prompts_dir self
  ∧ _prompt_cache self' !! filename = Some content
  ∧ (∀ other, other ≠ filename →
       _prompt_cache self' !! other = _prompt_cache self !! other)
  ∧ (∀ env', load_prompt env' filename self' = (Return content, self', []))
  ∧ (_prompt_cache self !! filename = None →
     (∃ text, read_text env (str (div (prompts_dir self) (filename +:+ ".txt")))
              = inr text ∧ content = strip text)
     ∧ strip content = content).
Proof.
  unfold load_prompt. run_monad.
  destruct (_prompt_cache self !! filename) as [cached|] eqn:Hcache.
  - intros [= <- <- <-]. rewrite Hcache. by repeat split.
  - destruct (read_text env _) as [[]|text]; try done.
    intros [= <- <- <-]. simpl. rewrite lookup_insert_eq.
    repeat split; try done.
    + intros other Hother. by rewrite lookup_insert_ne.
    + by exists text.
    + apply strip_strip.
Qed.

Lemma load_prompt_caches_witness :
  ∃ self',
    load_prompt Example.world "resume_team_task_prompt"
      (new_PromptManager Example.world None)
    = (Return "Improve this resume. Say FINAL when done.", self', [])
    ∧ load_prompt (Example.world_of []) "resume_team_task_prompt" self'
      = (Return "Improve this resume. Say FINAL when done.", self', []).
Proof.
  eexists. split; [by vm_compute|].
  eapply (load_prompt_caches Example.world "resume_team_task_prompt"
            _ (new_PromptManager Example.world None) _ []).
  by vm_compute.
Defined.

(** X6.  A prompt that cannot be read is not cached: the manager stays as
    it was, so a later call reads again.  A missing file is reported as
    [FileNotFoundError] with the path that was tried, the template name with
    ".txt" inside the prompt directory; any other failure is passed on
    unchanged. *)
Theorem load_prompt_failure (env : Env) (filename : string) (self : PromptManager)
    (e : exn) :
  let prompt_path := str (div (prompts_dir self) (filename +:+ ".txt")) in
  _prompt_cache self !! filename = None →
  read_text env prompt_path = inl e →
  load_prompt env filename self
  = (Raise (match e with
            | FileNotFoundError _ =>
                FileNotFoundError ("Prompt file not found: " +:+ prompt_path)
            | _ => e
            end), self, []).
Proof.
  intros prompt_path Hcache Hread. unfold load_prompt. run_monad.
  rewrite Hcache. fold prompt_path. rewrite Hread. by destruct e.
Qed.

Lemma load_prompt_failure_witness :
  load_prompt Example.world "cover_letter_prompt" (new_PromptManager Example.world None)
  = (Raise (FileNotFoundError "Prompt file not found: app/prompts/cover_letter_prompt.txt"),
     new_PromptManager Example.world None, []).
Proof.
  apply (load_prompt_failure Example.world "cover_letter_prompt"
           (new_PromptManager Example.world None)
           (FileNotFoundError "No such file or directory")).
  - by vm_compute.
  - by vm_compute.
Defined.

End PromptLoader.

Section PathFacts.
Import PyStr Pathlib.

Lemma split_nonempty (s : string) : split "/" s ≠ [].
Proof.
  destruct s as [|c s]; simpl; [done|].
  case_bool_decide; [done|]. by destruct (split "/" s).
Qed.

(** A component produced by splitting holds no separator: splitting it
    again gives back the component alone. *)
Lemma split_components (s x : string) : x ∈ split "/" s → split "/" x = [x].
Proof.
  revert x. induction s as [|c s IH]; intros x; simpl.
  - by intros ->%list_elem_of_singleton.
  - case_bool_decide as Hc.
    + intros [->|Hx]%elem_of_cons; [done|by apply IH].
    + destruct (split "/" s) as [|w ws] eqn:Hs.
      * intros ->%list_elem_of_singleton. simpl. by rewrite bool_decide_false.
      * intros [->|Hx]%elem_of_cons.
        -- simpl. rewrite bool_decide_false by done.
           rewrite (IH w); [done|by left].
        -- apply IH. by right.
Qed.

Lemma split_whole_inv (c : ascii) (x : string) :
  split "/" (String c x) = [String c x] → c ≠ "/"%char ∧ split "/" x = [x].
Proof.
  simpl. case_bool_decide as Hc; [done|].
  destruct (split "/" x) as [|w ws] eqn:Hx.
  - by destruct (split_nonempty x).
  - intros [= -> ->]. done.
Qed.

Lemma split_append (x rest : string) :
  split "/" x = [x] →
  split "/" (x +:+ String "/" rest) = x :: split "/" rest.
Proof.
  induction x as [|c x IH]; [done|].
  intros [Hc Hx]%split_whole_inv. rewrite append_cons. simpl.
  rewrite bool_decide_false by done. by rewrite IH.
Qed.

Lemma split_join (ps : list string) :
  Forall (λ x, split "/" x = [x]) ps → ps ≠ [] →
  split "/" (join "/" ps) = ps.
Proof.
  induction 1 as [|x ps Hx Hps IH]; [done|]. intros _.
  destruct ps as [|y ps]; [exact Hx|].
  change (join "/" (x :: y :: ps)) with (x +:+ String "/" (join "/" (y :: ps))).
  rewrite split_append by done. by rewrite IH.
Qed.

Lemma leading_slashes_other (c : ascii) (s : string) :
  c ≠ "/"%char → leading_slashes (String c s) = 0.
Proof.
  intros Hc. destruct c as [[] [] [] [] [] [] [] []]; try reflexivity.
  by destruct Hc.
Qed.

Lemma parts_wellformed (s : string) :
  Forall (λ x, (x ≠ "" ∧ x ≠ ".") ∧ split "/" x = [x]) (parts (of_string s)).
Proof.
  apply Forall_forall. intros x [Hok Hx]%list_elem_of_filter.
  split; [done|]. by apply (split_components s).
Qed.

Lemma filter_all {A} (P : A → Prop) `{∀ x, Decision (P x)} (l : list A) :
  Forall P l → filter P l = l.
Proof.
  induction 1 as [|x l Hx Hl IH]; [done|].
  by rewrite filter_cons, decide_True, IH.
Qed.

(** Parsing the string of a path gives the path back, for a path whose root
    is one of the three roots and whose components are real components. *)
Lemma of_string_str_wf (p : Path) :
  root p = "" ∨ root p = "/" ∨ root p = "//" →
  Forall (λ x, (x ≠ "" ∧ x ≠ ".") ∧ split "/" x = [x]) (parts p) →
  of_string (str p) = p.
Proof.
  intros Hroot Hparts. destruct p as [r ps]. simpl in *.
  assert (Forall (λ x, x ≠ "" ∧ x ≠ ".") ps) as Hok.
  { eapply Forall_impl; [exact Hparts|]. by intros x [? _]. }
  assert (Forall (λ x, split "/" x = [x]) ps) as Hsplit.
  { eapply Forall_impl; [exact Hparts|]. by intros x [_ ?]. }
  destruct ps as [|x ps].
  { by destruct Hroot as [->|[->| ->]]. }
  assert (split "/" (join "/" (x :: ps)) = x :: ps) as Hjoin.
  { by apply split_join. }
  assert (∃ c rest, join "/" (x :: ps) = String c rest ∧ c ≠ "/"%char)
    as (c & rest & Hhead & Hc).
  { inversion Hok as [|? ? [Hne _] _]; subst. inversion Hsplit; subst.
    destruct x as [|c x]; [done|].
    destruct (split_whole_inv c x) as [Hc _]; [done|].
    destruct ps; simpl; eauto. }
  destruct Hroot as [->|[->| ->]].
  - change (str {| root := ""; parts := x :: ps |}) with (join "/" (x :: ps)).
    unfold of_string. rewrite Hjoin, Hhead, leading_slashes_other by done.
    simpl. by rewrite (filter_all _ _ Hok).
  - change (str {| root := "/"; parts := x :: ps |})
      with (String "/" (join "/" (x :: ps))).
    unfold of_string.
    change (split "/" (String "/" (join "/" (x :: ps))))
      with ("" :: split "/" (join "/" (x :: ps))).
    change (leading_slashes (String "/" (join "/" (x :: ps))))
      with (S (leading_slashes (join "/" (x :: ps)))).
    rewrite Hjoin, Hhead, leading_slashes_other by done. simpl.
    rewrite filter_cons, decide_False by (by intros [? _]).
    by rewrite (filter_all _ _ Hok).
  - change (str {| root := "//"; parts := x :: ps |})
      with (String "/" (String "/" (join "/" (x :: ps)))).
    unfold of_string.
    change (split "/" (String "/" (String "/" (join "/" (x :: ps)))))
      with ("" :: "" :: split "/" (join "/" (x :: ps))).
    change (leading_slashes (String "/" (String "/" (join "/" (x :: ps)))))
      with (S (S (leading_slashes (join "/" (x :: ps))))).
    rewrite Hjoin, Hhead, leading_slashes_other by done. simpl.
    do 2 (rewrite filter_cons, decide_False by (by intros [? _])).
    by rewrite (filter_all _ _ Hok).
Qed.

Lemma of_string_root (s : string) :
  root (of_string s) = "" ∨ root (of_string s) = "/" ∨ root (of_string s) = "//".
Proof.
  unfold of_string. simpl. destruct (leading_slashes s) as [|[|[|n]]]; auto.
Qed.

(** Parsing the string of a parsed path gives the same path. *)
Lemma of_string_str (s : string) : of_string (str (of_string s)) = of_string s.
Proof. apply of_string_str_wf; [apply of_string_root|apply parts_wellformed]. Qed.

End PathFacts.

Section ExtractorProperties.
Import PyStr Pathlib Utils Observe.
Context (env : Env).

Local Arguments _find_poppler_path : simpl never.

Lemma concat_pages_texts {St} (texts : list string) (acc : string) (s : St) :
  concat_pages acc (map inr texts) s
  = (Return (acc +:+ join "" (map (λ t, t +:+ nl) texts)), s, []).
Proof.
  revert acc. induction texts as [|t texts IH]; intros acc; simpl.
  - by rewrite append_nil_r.
  - rewrite IH, append_assoc. do 3 f_equal.
    destruct texts as [|t' texts]; simpl; [by rewrite append_nil_r|done].
Qed.

Lemma extract_text_stripped (pdf_path : string) (self self' : PDFProcessor)
    (r : outcome string) (out : list event) :
  extract_text env pdf_path self = (r, self', out) →
  self' = self ∧ ∀ text, r = Return text → strip text = text.
Proof.
  unfold extract_text. rewrite bind_eq.
  destruct (Path_exists_run env (str (of_string pdf_path)) self) as (r0 & -> & _).
  destruct r0 as [[]|e|]; simpl; [|by intros [= <- <- _]..].
  run_monad. destruct (pdf_pages env _) as [e|pages]; simpl.
  - intros [= <- <- _]. split; [done|]. by intros text [= <-].
  - destruct (concat_pages_run pages "" self) as (r' & -> & _).
    destruct r' as [text|e|]; simpl.
    + intros [= <- <- _]. split; [done|]. intros ? [= <-]. apply strip_strip.
    + intros [= <- <- _]. split; [done|]. by intros text [= <-].
    + by intros [= <- <- _].
Qed.

(** X7.  When every page of an existing file yields its text,
    [extract_text] returns the texts in page order, each followed by a line
    break, with the white space at both ends of the whole removed; it
    prints nothing.  Whatever it returns is already stripped, and the
    processor is never changed. *)
Theorem extract_text_joins_pages (pdf_path : string) (self : PDFProcessor)
    (texts : list string) :
  path_exists env (str (of_string pdf_path)) = true →
  pdf_pages env (str (of_string pdf_path)) = inr (map inr texts) →
  extract_text env pdf_path self
  = (Return (strip (join "" (map (λ t, t +:+ nl) texts))), self, [])
  ∧ ∀ other r self' out,
      extract_text env other self = (r, self', out) →
      self' = self ∧ ∀ text, r = Return text → strip text = text.
Proof.
  intros Hex Hpages. split; [|intros other r self' out; apply extract_text_stripped].
  unfold extract_text. rewrite bind_eq, (Path_exists_true env _ _ Hex). simpl.
  rewrite Hpages. run_monad. by rewrite concat_pages_texts.
Qed.

(** The resolution that is used: the one given, unless it is absent or 0. *)
Lemma convert_to_images_cached (pdf_path pp : string) (dpi : option nat)
    (self : PDFProcessor) :
  path_exists env (str (of_string pdf_path)) = true →
  _poppler_path self = Some pp →
  convert_to_images env pdf_path dpi self
  = match convert_from_path env (str (of_string pdf_path))
            (match dpi with Some (S n) => S n | _ => default_dpi self end) (Some pp) with
    | inr images => (Return images, self, [])
    | inl e => (Return [], self, [Print ("Error converting PDF to images: " +:+ exn_msg e)])
    end.
Proof.
  intros Hex Hcache. unfold convert_to_images.
  rewrite bind_eq, (Path_exists_true env _ _ Hex). run_monad.
  rewrite Hcache. simpl. rewrite Hcache. by destruct (convert_from_path _ _ _ _).
Qed.

(** X8.  [convert_to_images] falls back to the default resolution when
    none or 0 is given.  With a Poppler directory already found it converts
    with that directory, searches nothing and leaves the processor as it is;
    without one it searches, and keeps what the search returned for the
    calls to come.  A search that raises is reported like a failed
    conversion: the error is printed, the result is the empty list, and the
    processor is as it was. *)
Theorem convert_to_images_settings (pdf_path : string) (dpi : option nat)
    (self : PDFProcessor) :
  path_exists env (str (of_string pdf_path)) = true →
  let p := str (of_string pdf_path) in
  let d := match dpi with Some (S n) => S n | _ => default_dpi self end in
  convert_to_images env pdf_path (Some 0) self = convert_to_images env pdf_path None self
  ∧ (∀ pp, _poppler_path self = Some pp →
       convert_to_images env pdf_path dpi self
       = match convert_from_path env p d (Some pp) with
         | inr images => (Return images, self, [])
         | inl e => (Return [], self,
                     [Print ("Error converting PDF to images: " +:+ exn_msg e)])
         end)
  ∧ (_poppler_path self = None →
     ∃ r searched,
       _find_poppler_path env self = (r, self, searched)
       ∧ convert_to_images env pdf_path dpi self
         = match r with
           | Return found =>
               match convert_from_path env p d found with
               | inr images =>
                   (Return images,
                    {| default_dpi := default_dpi self; _poppler_path := found |}, searched)
               | inl e =>
                   (Return [],
                    {| default_dpi := default_dpi self; _poppler_path := found |},
                    searched ++ [Print ("Error converting PDF to images: " +:+ exn_msg e)])
               end
           | Raise e =>
               (Return [], self,
                searched ++ [Print ("Error converting PDF to images: " +:+ exn_msg e)])
           | Hang => (Hang, self, searched)
           end
       ∧ r ≠ Hang).
Proof.
  intros Hex p d. split; [|split].
  - unfold convert_to_images. by rewrite !bind_eq, !(Path_exists_true env _ _ Hex).
  - intros pp Hcache. by apply convert_to_images_cached.
  - intros Hcache.
    destruct (find_poppler_path_run env self) as (r & searched & Hfind & Hr).
    exists r, searched. split; [exact Hfind|]. split; [|exact Hr].
    unfold convert_to_images. rewrite bind_eq, (Path_exists_true env _ _ Hex).
    run_monad. rewrite Hcache, Hfind. fold p d.
    destruct r as [found|e|]; simpl; [|done..].
    destruct (convert_from_path env p d found); simpl; by rewrite !app_nil_r.
Qed.

(** The loop over the candidates: it ends at the first one whose existence
    test does not answer no. *)
Lemma find_pdftoppm_first {St} (paths : list string) (s : St) :
  os_name env ≠ "nt" →
  let binary dir := str (div (of_string dir) "pdftoppm") in
  ∃ r i,
    find_pdftoppm env paths s = (r, s, [])
    ∧ (∀ j other, j < i → paths !! j = Some other →
         path_exists env (binary other) = false ∧ stat_error env (binary other) = None)
    ∧ match r with
      | Return (Some dir) => paths !! i = Some dir ∧ path_exists env (binary dir) = true
      | Return None => i = List.length paths
      | Raise e =>
          ∃ dir msg, paths !! i = Some dir ∧ path_exists env (binary dir) = false
                     ∧ stat_error env (binary dir) = Some msg ∧ e = OSError msg
      | Hang => False
      end.
Proof.
  intros Hos binary.
  induction paths as [|path rest IH]; simpl.
  - exists (Return None), 0. split; [done|]. split; [|done]. intros j other Hj. lia.
  - rewrite bool_decide_false by done. fold (binary path).
    rewrite bind_eq. unfold Path_exists.
    destruct (path_exists env (binary path)) eqn:Hex.
    + exists (Return (Some path)), 0. split; [done|]. split; [|done].
      intros j other Hj. lia.
    + destruct (stat_error env (binary path)) as [msg|] eqn:Hstat.
      * exists (Raise (OSError msg)), 0. split; [done|]. split.
        -- intros j other Hj. lia.
        -- by exists path, msg.
      * simpl. destruct IH as (r & i & -> & Hearlier & Hend).
        exists r, (S i). split; [by destruct r|]. split.
        -- intros [|j] other Hj; simpl.
           ++ by intros [= <-].
           ++ apply Hearlier. lia.
        -- destruct r as [[dir|]|e|]; simpl; [done|by rewrite Hend|done|done].
Qed.

(** X9.  On a POSIX host the search for Poppler asks for "pdftoppm" in the
    directories of the fixed list, in its order, and returns the first
    directory that holds it; when the existence test says no for all of
    them, it returns nothing and prints a warning; when the test fails for
    one, with none before it holding the binary, the error escapes.  The
    processor is never changed. *)
Theorem find_poppler_path_first (self : PDFProcessor) :
  os_name env ≠ "nt" →
  let binary dir := str (div (of_string dir) "pdftoppm") in
  ∃ r out i,
    _find_poppler_path env self = (r, self, out)
    ∧ (∀ j other, j < i → possible_paths env !! j = Some other →
         path_exists env (binary other) = false ∧ stat_error env (binary other) = None)
    ∧ match r with
      | Return (Some dir) =>
          out = [] ∧ possible_paths env !! i = Some dir
          ∧ path_exists env (binary dir) = true
      | Return None =>
          out = [Print "Warning: Poppler not found. PDF to image conversion may not work."]
          ∧ i = List.length (possible_paths env)
      | Raise e =>
          out = []
          ∧ ∃ dir msg, possible_paths env !! i = Some dir
                       ∧ path_exists env (binary dir) = false
                       ∧ stat_error env (binary dir) = Some msg ∧ e = OSError msg
      | Hang => False
      end.
Proof.
  intros Hos binary. unfold _find_poppler_path. rewrite bind_eq.
  destruct (find_pdftoppm_first (possible_paths env) self Hos)
    as (r & i & -> & Hearlier & Hend).
  destruct r as [[dir|]|e|]; [| | |done].
  - exists (Return (Some dir)), [], i.
    split; [done|]. split; [exact Hearlier|]. by split.
  - eexists (Return None), _, i.
    split; [reflexivity|]. split; [exact Hearlier|]. by split.
  - exists (Raise e), [], i.
    split; [done|]. split; [exact Hearlier|]. by split.
Qed.

End ExtractorProperties.

Lemma extract_text_joins_pages_witness :
  Utils.extract_text Example.world "cv//resume.PDF" (Utils.new_PDFProcessor 300)
  = (Return "Experience: built tools.", Utils.new_PDFProcessor 300, []).
Proof.
  apply (extract_text_joins_pages Example.world "cv//resume.PDF"
           (Utils.new_PDFProcessor 300) ["Experience: built tools."; ""]).
  - by vm_compute.
  - by vm_compute.
Defined.

Lemma find_poppler_path_first_witness :
  os_name Example.world ≠ "nt"
  ∧ Utils._find_poppler_path Example.world (Utils.new_PDFProcessor 300)
    = (Return (Some "/usr/bin"), Utils.new_PDFProcessor 300, []).
Proof.
  assert (os_name Example.world ≠ "nt") as Hos by done.
  split; [exact Hos|].
  destruct (find_poppler_path_first Example.world (Utils.new_PDFProcessor 300) Hos)
    as (r & out & i & Hrun & _ & _).
  rewrite Hrun. vm_compute in Hrun. by injection Hrun as <- <-.
Defined.

Lemma convert_to_images_settings_witness :
  Utils.convert_to_images Example.world "cv/resume.PDF" (Some 0) (Utils.new_PDFProcessor 300)
  = (Return [Example.page1; Example.page2],
     {| Utils.default_dpi := 300; Utils._poppler_path := Some "/usr/bin" |}, []).
Proof.
  destruct (convert_to_images_settings Example.world "cv/resume.PDF" (Some 0)
              (Utils.new_PDFProcessor 300)) as [-> _]; [by vm_compute|].
  by vm_compute.
Defined.

Section PersisterProperties.
Import PyStr Pathlib Utils Observe.

Lemma save_loop_fails {St} (env : Env) (output_dir base : string)
    (before after : list Image) (img : Image) (i : nat) (saved : list string)
    (e : exn) (s : St) :
  (∀ p, p ∈ page_paths output_dir base i (List.length before) → save_error env p = None) →
  save_error env (page_path output_dir base (i + List.length before)) = Some e →
  save_loop env (of_string output_dir) base i (before ++ img :: after) saved s
  = (Raise e, s,
     zip_with SaveImage (page_paths output_dir base i (S (List.length before)))
              (before ++ [img])).
Proof.
  revert i saved. induction before as [|b before IH]; intros i saved Hok Hfail.
  - simpl in *. rewrite Nat.add_0_r in Hfail. run_monad.
    fold (page_path output_dir base i). by rewrite Hfail.
  - simpl. run_monad. fold (page_path output_dir base i).
    rewrite (Hok (page_path output_dir base i)) by (unfold page_paths; simpl; left).
    rewrite IH.
    + done.
    + intros p Hp. apply Hok. unfold page_paths in *. simpl. by right.
    + simpl in Hfail. by replace (S i + List.length before)
        with (i + S (List.length before)) by lia.
Qed.

(** X10.  [save_images] stops at the first failure.  When the directory
    cannot be created, no image is written.  When saving an image fails, the
    images before it have been written under their numbered names, the
    failing one was the last attempt, the images after it are never tried,
    and the exception escapes: no list of paths is returned. *)
Theorem save_images_stops_at_failure {St} (env : Env) (output_dir : string)
    (base_filename : option string) (before after : list Image) (img : Image)
    (e : exn) (s : St) :
  let base := default "page" base_filename in
  let dir := str (of_string output_dir) in
  (mkdir_error env dir = Some e →
     save_images env (before ++ img :: after) output_dir base_filename s
     = (Raise e, s, [Mkdir dir]))
  ∧ (mkdir_error env dir = None →
     (∀ p, p ∈ page_paths output_dir base 1 (List.length before) → save_error env p = None) →
     save_error env (page_path output_dir base (S (List.length before))) = Some e →
     save_images env (before ++ img :: after) output_dir base_filename s
     = (Raise e, s,
        Mkdir dir
        :: zip_with SaveImage (page_paths output_dir base 1 (S (List.length before)))
                    (before ++ [img]))).
Proof.
  intros base dir. unfold save_images. run_monad. fold base dir. split.
  - by intros ->.
  - intros -> Hok Hfail.
    by rewrite (save_loop_fails env output_dir base before after img 1 [] e s Hok Hfail).
Qed.

End PersisterProperties.

Section ProcessPdfProperties.
Import PyStr Pathlib Utils Observe.
Context (env : Env).

(** X11.  [process_pdf] validates first: for a path that does not exist it
    raises at once, [FileNotFoundError] when the existence test says that
    there is no such file and the error of the test when the test fails;
    for a path without ".pdf" extension it raises [ValueError]; in both
    cases it prints nothing and leaves the processor untouched.  For an
    existing ".pdf" path and no output directory it always returns: the
    text, already stripped, the images, and no saved paths; it only prints,
    among other things the number of characters of the text, keeps the
    prompt manager and the default resolution, and saves nothing. *)
Theorem process_pdf_validates_then_returns (pdf_path : string) (self : ResumeProcessor) :
  let path := of_string pdf_path in
  (path_exists env (str path) = false →
     process_pdf env pdf_path None self
     = (Raise (match stat_error env (str path) with
               | Some msg => OSError msg
               | None => FileNotFoundError ("File not found: " +:+ str path)
               end), self, []))
  ∧ (path_exists env (str path) = true → lower (Pathlib.suffix path) ≠ ".pdf" →
     process_pdf env pdf_path None self
     = (Raise (ValueError ("File is not a PDF: " +:+ str path)), self, []))
  ∧ (path_exists env (str path) = true → lower (Pathlib.suffix path) = ".pdf" →
     ∃ text images self' out,
       process_pdf env pdf_path None self = (Return (text, images, []), self', out)
       ∧ strip text = text
       ∧ Forall is_print out
       ∧ Print ("Extracted " +:+ of_nat (len text) +:+ " characters of text") ∈ out
       ∧ prompt_manager self' = prompt_manager self
       ∧ default_dpi (pdf_processor self') = default_dpi (pdf_processor self)).
Proof.
  intros path. split; [|split].
  - intros Hno. unfold process_pdf, validate_pdf_path. rewrite !bind_eq.
    fold path. unfold Path_exists. rewrite Hno.
    by destruct (stat_error env (str path)).
  - intros Hex Hext. unfold process_pdf, validate_pdf_path. rewrite !bind_eq.
    fold path. rewrite (Path_exists_true env _ _ Hex). simpl.
    by rewrite bool_decide_false.
  - intros Hex Hext.
    assert (path_exists env (str (of_string (str path))) = true) as Hex'.
    { unfold path. by rewrite of_string_str. }
    pose proof (process_pdf_emits env pdf_path self) as Hprints.
    revert Hprints.
    unfold process_pdf, validate_pdf_path, on_pdf_processor, zoom.
    rewrite !bind_eq. fold path. rewrite (Path_exists_true env _ _ Hex). simpl.
    rewrite bool_decide_true by done. simpl.
    rewrite bind_eq. simpl. rewrite bind_eq.
    pose proof (extract_text_exists env (str path) (pdf_processor self) Hex') as Htext.
    destruct (extract_text env (str path) (pdf_processor self))
      as [[rt pt] ot] eqn:Hextract.
    destruct (extract_text_stripped env _ _ _ _ _ Hextract) as [-> Hstripped].
    assert (∃ text, rt = Return text) as [text ->].
    { destruct (parse_failure env _); [|destruct Htext as [text Htext]];
        injection Htext as -> _; eauto. }
    rewrite bind_eq.
    destruct (convert_to_images_exists env (str path) None
                {| default_dpi := default_dpi (pdf_processor self);
                   _poppler_path := _poppler_path (pdf_processor self) |} Hex')
      as (images & pc & oc & Hconv & Hdpi & _).
    replace {| default_dpi := default_dpi (pdf_processor self);
               _poppler_path := _poppler_path (pdf_processor self) |}
      with (pdf_processor self) in * by (by destruct (pdf_processor self)).
    simpl. rewrite Hconv. run_monad. intros Hprints.
    eexists text, images, _, _. split; [reflexivity|].
    split; [by apply Hstripped|]. split; [exact Hprints|].
    split; [|by simpl].
    rewrite !elem_of_cons, !elem_of_app, !elem_of_cons. tauto.
Qed.

End ProcessPdfProperties.

Lemma save_images_stops_at_failure_witness :
  Utils.save_images
    {| argv := []; stdin_line := None; os_name := "posix"; venv_bin := None;
       module_dir := "app"; path_exists := λ _, true; stat_error := λ _, None;
       read_text := λ _, inl (FileNotFoundError "");
       pdf_pages := λ _, inr []; convert_from_path := λ _ _ _, inr [];
       mkdir_error := λ _, None;
       save_error := λ p, if bool_decide (p = "out/page_02.png")
                          then Some (LibraryError "No space left on device") else None;
       model_reply := λ _ _, inr ""; from_string_error := λ _ _, None |}
    ([Example.page1] ++ Example.page2 :: [Example.page1]) "out" None tt
  = (Raise (LibraryError "No space left on device"), tt,
     [Mkdir "out"; SaveImage "out/page_01.png" Example.page1;
      SaveImage "out/page_02.png" Example.page2]).
Proof.
  apply save_images_stops_at_failure.
  - reflexivity.
  - intros p Hp. apply list_elem_of_singleton in Hp as ->. by vm_compute.
  - by vm_compute.
Defined.

Lemma process_pdf_validates_then_returns_witness :
  ∃ text images self' out,
    Utils.process_pdf Example.world "cv/resume.PDF" None
      (Utils.new_ResumeProcessor Example.world None 300)
    = (Return (text, images, []), self', out)
    ∧ PyStr.strip text = text
    ∧ Forall Observe.is_print out
    ∧ Print ("Extracted " +:+ PyStr.of_nat (PyStr.len text) +:+ " characters of text") ∈ out
    ∧ Utils.prompt_manager self'
      = Utils.prompt_manager (Utils.new_ResumeProcessor Example.world None 300)
    ∧ Utils.default_dpi (Utils.pdf_processor self') = 300.
Proof.
  apply (process_pdf_validates_then_returns Example.world "cv/resume.PDF"
           (Utils.new_ResumeProcessor Example.world None 300)).
  - by vm_compute.
  - by vm_compute.
Defined.

Section OutputPath.
Import PyStr Pathlib Utils.

Lemma split_prefix (a b : string) :
  split "/" (a +:+ b) = [a +:+ b] → split "/" a = [a].
Proof.
  induction a as [|c a IH]; [done|]. rewrite append_cons.
  intros [Hc Hab]%split_whole_inv. simpl.
  rewrite bool_decide_false by done. by rewrite IH.
Qed.

Lemma split_whole_app (a b : string) :
  split "/" a = [a] → split "/" b = [b] → split "/" (a +:+ b) = [a +:+ b].
Proof.
  induction a as [|c a IH]; [done|].
  intros [Hc Ha]%split_whole_inv Hb. rewrite append_cons. simpl.
  rewrite bool_decide_false by done. by rewrite IH.
Qed.

Lemma substring_all (s : string) : substring 0 (String.length s) s = s.
Proof. induction s as [|c s IH]; simpl; [done|]. by f_equal. Qed.

Lemma substring_parts (s : string) (i : nat) :
  i ≤ String.length s →
  substring 0 i s +:+ substring i (String.length s - i) s = s.
Proof.
  revert i. induction s as [|c s IH]; intros [|i] Hi.
  - done.
  - simpl in Hi. lia.
  - rewrite Nat.sub_0_r, substring_all. reflexivity.
  - change (String c (substring 0 i s) +:+ substring i (String.length s - i) s
            = String c s).
    rewrite append_cons. f_equal. apply IH. simpl in Hi. lia.
Qed.

Lemma rfind_dot_bound (s : string) (i : nat) :
  rfind_dot s = Some i → i < String.length s.
Proof.
  revert i. induction s as [|c s IH]; intros i; simpl; [done|].
  destruct (rfind_dot s) as [j|].
  - intros [= <-]. specialize (IH j eq_refl). lia.
  - case_bool_decide; [|done]. intros [= <-]. lia.
Qed.

Lemma rfind_dot_char (s : string) (i : nat) :
  rfind_dot s = Some i →
  ∃ rest, substring i (String.length s - i) s = String "." rest.
Proof.
  revert i. induction s as [|c s IH]; intros i; simpl; [done|].
  destruct (rfind_dot s) as [j|] eqn:Hj.
  - intros [= <-]. simpl. by apply IH.
  - case_bool_decide as Hc; [|done]. intros [= <-]. subst c. simpl. eauto.
Qed.

(** The name of a path is its stem followed by its extension, and the
    extension is empty or begins with a dot. *)
Lemma stem_suffix (p : Path) :
  stem p +:+ Pathlib.suffix p = name p
  ∧ (Pathlib.suffix p = "" ∨ ∃ rest, Pathlib.suffix p = String "." rest).
Proof.
  unfold stem, Pathlib.suffix.
  destruct (rfind_dot (name p)) as [i|] eqn:Hi.
  - destruct (_ && _).
    + split.
      * apply substring_parts. apply rfind_dot_bound in Hi. lia.
      * right. by apply rfind_dot_char.
    + split; [apply append_nil_r|by left].
  - split; [apply append_nil_r|by left].
Qed.

Lemma name_whole (s : string) : split "/" (name (of_string s)) = [name (of_string s)].
Proof.
  unfold name. destruct (last (parts (of_string s))) as [x|] eqn:Hlast; [|done].
  apply last_Some_elem_of in Hlast.
  pose proof (parts_wellformed s) as Hwf. rewrite Forall_forall in Hwf.
  by apply Hwf.
Qed.

Lemma Forall_removelast {A} (P : A → Prop) (l : list A) :
  Forall P l → Forall P (removelast l).
Proof.
  destruct l as [|z l _] using rev_ind; [done|].
  rewrite removelast_last. by intros [? _]%Forall_app.
Qed.

(** What [generate_output_filename] appends to the directory of the input
    is one real component of a path. *)
Lemma new_name_component (s sfx : string) :
  split "/" sfx = [sfx] →
  let x := stem (of_string s) +:+ "_" +:+ sfx +:+ ".pdf" in
  of_string x = {| root := ""; parts := [x] |} ∧ x ≠ name (of_string s).
Proof.
  intros Hsfx x.
  destruct (stem_suffix (of_string s)) as [Hname Hext].
  assert (split "/" (stem (of_string s)) = [stem (of_string s)]) as Hstem.
  { apply (split_prefix _ (Pathlib.suffix (of_string s))).
    rewrite Hname. apply name_whole. }
  assert (split "/" x = [x]) as Hx.
  { unfold x. apply split_whole_app; [done|].
    apply (split_whole_app "_"); [done|]. by apply split_whole_app. }
  assert (x ≠ "" ∧ x ≠ ".") as Hreal.
  { unfold x. destruct (stem (of_string s)) as [|c st].
    - change ("" +:+ "_" +:+ sfx +:+ ".pdf") with (String "_" (sfx +:+ ".pdf")).
      by split.
    - rewrite append_cons. split; [done|]. intros [= _ Hrest].
      destruct st as [|c' st]; [|by rewrite append_cons in Hrest].
      change ("" +:+ "_" +:+ sfx +:+ ".pdf") with (String "_" (sfx +:+ ".pdf")) in Hrest.
      done. }
  assert (leading_slashes x = 0) as Hlead.
  { destruct x as [|d x']; [done|].
    apply split_whole_inv in Hx as [Hd _]. by apply leading_slashes_other. }
  split.
  - unfold of_string. rewrite Hlead, Hx. simpl.
    by rewrite filter_cons, decide_True.
  - intros Heq. rewrite <- Hname in Heq. unfold x in Heq.
    apply (inj (String.append _)) in Heq.
    by destruct Hext as [Hext|[r Hext]]; rewrite Hext in Heq.
Qed.

(** X12.  With a suffix that holds no "/", the output path lies in the
    directory of the input, and its name is the stem of the input, "_", the
    suffix and ".pdf".  This name is never the name of the input, so the
    output path is never the input path: writing the improved resume cannot
    overwrite the original. *)
Theorem generate_output_filename_beside_input (input_path : string)
    (suffix : option string) :
  let sfx := default "improved" suffix in
  let p := of_string input_path in
  let output := of_string (generate_output_filename input_path suffix) in
  split "/" sfx = [sfx] →
  parent output = parent p
  ∧ name output = stem p +:+ "_" +:+ sfx +:+ ".pdf"
  ∧ name output ≠ name p
  ∧ generate_output_filename input_path suffix ≠ str p.
Proof.
  intros sfx p output Hsfx.
  destruct (new_name_component input_path sfx Hsfx) as [Hparse Hne].
  fold p in Hparse, Hne.
  set (x := stem p +:+ "_" +:+ sfx +:+ ".pdf") in *.
  assert (output = {| root := root p; parts := removelast (parts p) ++ [x] |})
    as Houtput.
  { unfold output, generate_output_filename. fold sfx p x.
    unfold div. rewrite Hparse. simpl.
    apply of_string_str_wf; simpl; [apply of_string_root|].
    apply Forall_app. split.
    - apply Forall_removelast, parts_wellformed.
    - pose proof (parts_wellformed x) as Hwf. by rewrite Hparse in Hwf. }
  assert (name output = x) as Hname.
  { rewrite Houtput. unfold name. simpl. by rewrite last_snoc. }
  split; [|split; [done|split; [by rewrite Hname|]]].
  - rewrite Houtput. unfold parent. simpl. by rewrite removelast_last.
  - intros Heq. apply Hne. rewrite <- Hname. unfold output. rewrite Heq.
    unfold p. by rewrite of_string_str.
Qed.

Lemma generate_output_filename_beside_input_witness :
  name (of_string (generate_output_filename "cv/resume.final.PDF" None))
  = "resume.final_improved.pdf"
  ∧ generate_output_filename "cv/resume.final.PDF" None ≠ "cv/resume.final.PDF".
Proof.
  destruct (generate_output_filename_beside_input "cv/resume.final.PDF" None)
    as (_ & Hname & _ & Hne); [by vm_compute|].
  split; [exact Hname|exact Hne].
Defined.

End OutputPath.

(** ** resumeimprover.py: agents, stages and the command line *)

Section AgentProperties.
Import PyStr AutoGen ResumeImprover Observe.
Context (env : Env).

Lemma client_result (m : Model.ModelManager) :
  ∃ c m', Model.client m = (Return c, m', [])
          ∧ Model._client m' = Some c
          ∧ Model._config m' = Model._config m
          ∧ Model.constructed m ≤ Model.constructed m' ≤ S (Model.constructed m)
          ∧ ∀ c0, Model._client m = Some c0 → c = c0 ∧ m' = m.
Proof.
  destruct (Model._client m) as [c|] eqn:Hcache.
  - exists c, m. rewrite (client_cached m c Hcache).
    split; [done|]. split; [done|]. split; [done|]. split; [lia|].
    by intros c0 [= <-].
  - eexists _, _. rewrite (client_fresh m Hcache). simpl.
    split; [done|]. split; [done|]. split; [done|]. split; [simpl; lia|]. done.
Qed.

(** Building an agent: the one client of the manager is bound to it, built
    now if there was none. *)
Lemma create_agents_client (self : ResumeImprover) :
  let bound (create : Env → M ResumeImprover Agent) :=
    ∃ r self' c, create env self = (r, self', [])
      ∧ team self' = team self ∧ r ≠ Hang
      ∧ Model._client (model_manager self') = Some c
      ∧ Model._config (model_manager self') = Model._config (model_manager self)
      ∧ Model.constructed (model_manager self)
        ≤ Model.constructed (model_manager self')
        ≤ S (Model.constructed (model_manager self))
      ∧ (∀ c0, Model._client (model_manager self) = Some c0 →
           c = c0 ∧ model_manager self' = model_manager self)
      ∧ ∀ a, r = Return a → model_client a = c in
  bound create_draft_agent ∧ bound create_enhancement_agent
  ∧ bound create_conciseness_agent ∧ bound create_image_agent.
Proof.
  intros bound. subst bound. simpl.
  destruct (client_result (model_manager self))
    as (c & m' & Hclient & Hc & Hcfg & Hn & Hcached).
  repeat split;
    match goal with
    | |- ∃ r self' c, ?create env self = _ ∧ _ =>
        unfold create, on_model_manager, on_prompt_manager, zoom;
        rewrite bind_eq, Hclient; simpl; rewrite bind_eq; simpl
    end;
    match goal with
    | |- context [Utils.load_prompt env ?f ?pm] =>
        destruct (load_prompt_silent env f pm) as (r & pm' & -> & Hr)
    end;
    (destruct r as [prompt|e|]; [| |done]); simpl;
    eexists _, _, c; (split; [reflexivity|]); simpl;
    (split; [done|]); (split; [done|]); (split; [done|]); (split; [done|]);
    (split; [done|]);
    (split; [intros c0 Hc0; by destruct (Hcached c0 Hc0) as [-> ->]|]);
    by intros a [= <-].
Qed.

(** Building the team when none is cached. *)
Lemma create_team_build (self : ResumeImprover) :
  _team (team self) = None →
  ∃ r self' c,
    create_team env self = (r, self', [])
    ∧ Model._client (model_manager self') = Some c
    ∧ Model._config (model_manager self') = Model._config (model_manager self)
    ∧ Model.constructed (model_manager self')
      ≤ S (Model.constructed (model_manager self))
    ∧ (∀ c0, Model._client (model_manager self) = Some c0 → c = c0)
    ∧ match r with
      | Return t =>
          Forall (λ a, model_client a = c) (participants t)
          ∧ team self' = {| _team := Some t; _image_agent := _image_agent (team self) |}
      | Raise _ => team self' = team self
      | Hang => False
      end.
Proof.
  intros Hnone. unfold create_team. rewrite bind_eq. simpl. rewrite Hnone.
  destruct (create_agents_client self)
    as ((r1 & s1 & c & H1 & Ht1 & Hh1 & Hc1 & Hcfg1 & Hn1 & Hold1 & Ha1) & _).
  rewrite bind_eq, H1.
  destruct r1 as [a1|e|]; [| |done].
  2: { exists (Raise e), s1, c. repeat split; try done; try lia.
       intros c0 Hc0. by destruct (Hold1 c0 Hc0). }
  destruct (create_agents_client s1)
    as (_ & (r2 & s2 & c2 & H2 & Ht2 & Hh2 & Hc2 & Hcfg2 & Hn2 & Hold2 & Ha2) & _).
  destruct (Hold2 c Hc1) as [-> Hm2].
  rewrite bind_eq, H2.
  destruct r2 as [a2|e|]; [| |done].
  2: { exists (Raise e), s2, c. rewrite Hm2.
       split; [done|]. split; [done|]. split; [done|]. split; [lia|].
       split; [|congruence]. intros c0 Hc0. by destruct (Hold1 c0 Hc0). }
  destruct (create_agents_client s2)
    as (_ & _ & (r3 & s3 & c3 & H3 & Ht3 & Hh3 & Hc3 & Hcfg3 & Hn3 & Hold3 & Ha3) & _).
  destruct (Hold3 c Hc2) as [-> Hm3].
  rewrite bind_eq, H3.
  destruct r3 as [a3|e|]; [| |done].
  2: { exists (Raise e), s3, c. rewrite Hm3, Hm2.
       split; [done|]. split; [done|]. split; [done|]. split; [lia|].
       split; [|congruence]. intros c0 Hc0. by destruct (Hold1 c0 Hc0). }
  unfold on_team. run_monad. eexists _, _, c. split; [reflexivity|]. simpl.
  rewrite Hm3, Hm2.
  split; [done|]. split; [done|]. split; [lia|].
  split; [intros c0 Hc0; by destruct (Hold1 c0 Hc0)|].
  split.
  - repeat constructor; auto.
  - by rewrite Ht3, Ht2, Ht1.
Qed.

(** X13.  Many agents, one client: the three agents of a team just built
    are bound to one and the same client handle, the one the manager holds
    afterwards; it is the handle the manager already held, if it held one,
    and at most one client is built.  The image agent built after that is
    bound to the same handle. *)
Theorem agents_share_one_client (self self' : ResumeImprover)
    (t : RoundRobinGroupChat) (out : list event) :
  _team (team self) = None →
  create_team env self = (Return t, self', out) →
  ∃ c, Model._client (model_manager self') = Some c
       ∧ Forall (λ a, model_client a = c) (participants t)
       ∧ (∀ c0, Model._client (model_manager self) = Some c0 → c = c0)
       ∧ Model.constructed (model_manager self')
         ≤ S (Model.constructed (model_manager self))
       ∧ ∀ a s2 o2,
           _image_agent (team self') = None →
           get_image_agent env self' = (Return a, s2, o2) →
           model_client a = c
           ∧ Model.constructed (model_manager s2)
             = Model.constructed (model_manager self').
Proof.
  intros Hnone Hrun.
  destruct (create_team_build self Hnone)
    as (r & s1 & c & Hbuild & Hc & _ & Hn & Hold & Hend).
  rewrite Hrun in Hbuild. injection Hbuild as <- <- ->.
  destruct Hend as [Hall _].
  exists c. split; [done|]. split; [done|]. split; [done|]. split; [done|].
  intros a s2 o2 Hnoimg. unfold get_image_agent. rewrite bind_eq. simpl.
  rewrite Hnoimg.
  destruct (create_agents_client self')
    as (_ & _ & _ & (r4 & s4 & c4 & H4 & _ & _ & _ & _ & _ & Hold4 & Ha4)).
  destruct (Hold4 c Hc) as [-> Hm4].
  rewrite bind_eq, H4. destruct r4 as [a4|e|]; [|done..].
  unfold on_team. run_monad. intros [= <- <- _]. simpl.
  split; [by apply Ha4|by rewrite Hm4].
Qed.

(** X14.  [create_team] builds the team at most once and prints nothing.
    When it returns, the team is cached, the cached image agent is
    untouched, and every later call returns the same team without changing
    anything, whatever the prompt files have become.  When a prompt cannot
    be loaded the exception escapes and no team is cached, so the next call
    tries again. *)
Theorem create_team_builds_once (self self' : ResumeImprover)
    (r : outcome RoundRobinGroupChat) (out : list event) :
  create_team env self = (r, self', out) →
  out = []
  ∧ match r with
    | Return t =>
        _team (team self') = Some t
        ∧ _image_agent (team self') = _image_agent (team self)
        ∧ ∀ env', create_team env' self' = (Return t, self', [])
    | Raise _ => team self' = team self
    | Hang => False
    end.
Proof.
  assert (∀ t s, _team (team s) = Some t →
            ∀ env', create_team env' s = (Return t, s, [])) as Hcached.
  { intros t s Ht env'. unfold create_team. rewrite bind_eq. simpl. by rewrite Ht. }
  destruct (_team (team self)) as [cached|] eqn:Hcache.
  - rewrite (Hcached cached self Hcache). intros [= <- <- <-].
    split; [done|]. split; [done|]. split; [done|]. by apply Hcached.
  - destruct (create_team_build self Hcache)
      as (r' & s1 & c & -> & _ & _ & _ & _ & Hend).
    intros [= <- <- <-]. split; [done|].
    destruct r' as [t|e|]; [|done..].
    destruct Hend as [_ Hteam]. rewrite Hteam. simpl.
    split; [done|]. split; [done|]. apply Hcached. by rewrite Hteam.
Qed.

End AgentProperties.

Lemma agents_share_one_client_witness :
  ∃ t self' c,
    ResumeImprover.create_team Example.world Example.improver = (Return t, self', [])
    ∧ Model._client (ResumeImprover.model_manager self') = Some c
    ∧ Forall (λ a, model_client a = c) (AutoGen.participants t)
    ∧ Model.constructed (ResumeImprover.model_manager self') ≤ 1.
Proof.
  destruct (ResumeImprover.create_team Example.world Example.improver)
    as [[r s] o] eqn:Hrun.
  pose proof (f_equal (λ x : _ * _ * _, x.1.1) Hrun) as Hr.
  pose proof (f_equal (λ x : _ * _ * _, x.2) Hrun) as Ho.
  vm_compute in Hr, Ho. subst r o.
  match type of Hrun with
  | _ = (Return ?t, _, _) =>
      destruct (agents_share_one_client Example.world Example.improver s t [])
        as (c & Hc & Hall & _ & Hn & _); [reflexivity|exact Hrun|];
      exists t, s, c
  end.
  split; [reflexivity|]. split; [exact Hc|]. split; [exact Hall|exact Hn].
Defined.

Lemma create_team_builds_once_witness :
  ∃ t self',
    ResumeImprover.create_team Example.world Example.improver = (Return t, self', [])
    ∧ ResumeImprover.create_team (Example.world_of []) self' = (Return t, self', []).
Proof.
  destruct (ResumeImprover.create_team Example.world Example.improver)
    as [[r s] o] eqn:Hrun.
  pose proof (f_equal (λ x : _ * _ * _, x.1.1) Hrun) as Hr.
  vm_compute in Hr. subst r.
  destruct (create_team_builds_once Example.world _ _ _ _ Hrun)
    as (-> & _ & _ & Hagain).
  eexists _, s. split; [reflexivity|apply Hagain].
Defined.

Section StageProperties.
Import PyStr AutoGen ResumeImprover Observe.
Context (env : Env).

(** X15.  The image stage is a single request: with the image agent at
    hand, [generate_resume_image] asks it once, with the improved text and
    the original page attached, and returns its answer as it is, an empty
    answer included; a failure of the backend escapes.  Nothing but that one
    request happens. *)
Theorem generate_resume_image_single_shot (self s1 : ResumeImprover)
    (agent : Agent) (o1 : list event) (improved_text : string) (original_image : Image) :
  improver_ok self →
  get_image_agent env self = (Return agent, s1, o1) →
  let image_task :=
    {| source := "user";
       content := "New Resume Content:" +:+ nl +:+ improved_text +:+ nl +:+ nl
                  +:+ "Original image with desired format attached";
       attachment := Some original_image |} in
  generate_resume_image env improved_text original_image self
  = (match model_reply env agent [image_task] with
     | inr answer => Return (Some answer)
     | inl e => Raise e
     end, s1, [Inference "ResumeImageAgent"]).
Proof.
  intros Hok Hagent image_task.
  destruct (get_image_agent_run env self Hok) as (r & s & Hrun & _ & _ & Hname).
  rewrite Hagent in Hrun. injection Hrun as <- <- ->.
  unfold generate_resume_image. rewrite bind_eq, Hagent. fold image_task.
  unfold agent_run_stream. run_monad. rewrite (Hname agent eq_refl).
  by destruct (model_reply env agent [image_task]) as [e|answer].
Qed.

End StageProperties.

Lemma generate_resume_image_single_shot_witness :
  (ResumeImprover.generate_resume_image Example.world "Experience: built tools. FINAL"
     Example.page1 Example.improver).1
  = (Return (Some "<html>Experience: built tools.</html>"),
     (ResumeImprover.get_image_agent Example.world Example.improver).1.2).
Proof.
  let got := eval vm_compute in
    (ResumeImprover.get_image_agent Example.world Example.improver) in
  match got with
  | (Return ?a, ?s, _) =>
      rewrite (generate_resume_image_single_shot Example.world Example.improver s a []
                 "Experience: built tools. FINAL" Example.page1)
  end.
  - by vm_compute.
  - by vm_compute.
  - by vm_compute.
Defined.

Section CommandLine.
Import PyStr Pathlib AutoGen ResumeImprover Observe.
Context (env : Env).

Lemma halts_ret {St A} (a : A) : halts (St:=St) (ret a).
Proof. by intros s. Qed.

Lemma halts_raise {St A} (e : exn) : halts (St:=St) (A:=A) (raise e).
Proof. by intros s. Qed.

Lemma halts_print {St} (line : string) : halts (St:=St) (print line).
Proof. by intros s. Qed.

Lemma halts_emit {St} (ev : event) : halts (St:=St) (emit ev).
Proof. by intros s. Qed.

Lemma halts_get {St} : halts (St:=St) get.
Proof. by intros s. Qed.

Lemma halts_put {St} (s' : St) : halts (put s').
Proof. by intros s. Qed.

Lemma halts_bind {St A B} (m : M St A) (k : A → M St B) :
  halts m → (∀ a, halts (k a)) → halts (bind m k).
Proof.
  intros Hm Hk s. specialize (Hm s). unfold bind.
  destruct (m s) as [[[a|e|] s1] out1]; simpl in *; try done.
  specialize (Hk a s1). by destruct (k a s1) as [[r s2] out2].
Qed.

Lemma halts_try_except {St A} (body : M St A) (catches : exn → bool)
    (handler : exn → M St A) :
  halts body → (∀ e, halts (handler e)) → halts (try_except body catches handler).
Proof.
  intros Hm Hk s. specialize (Hm s). unfold try_except.
  destruct (body s) as [[[a|e|] s1] out1]; simpl in *; try done.
  destruct (catches e); [|done].
  specialize (Hk e s1). by destruct (handler e s1) as [[r s2] out2].
Qed.

Lemma halts_zoom {St Sub A} (proj : St → Sub) (upd : Sub → St → St) (m : M Sub A) :
  halts m → halts (zoom proj upd m).
Proof.
  intros Hm s. specialize (Hm (proj s)). unfold zoom.
  by destruct (m (proj s)) as [[r sub] out].
Qed.

Ltac halts_step :=
  first
    [ apply halts_ret | apply halts_raise | apply halts_get | apply halts_put
    | apply halts_print | apply halts_emit | apply halts_zoom
    | apply halts_bind; [|intros ?]
    | apply halts_try_except; [|intros ?]
    | match goal with
      | |- halts (match ?x with _ => _ end) => destruct x
      | |- halts (if ?b then _ else _) => destruct b
      end ].

Lemma concat_pages_halts {St} (acc : string) (pages : list (exn + string)) :
  halts (St:=St) (Utils.concat_pages acc pages).
Proof.
  revert acc. induction pages as [|[e|t] rest IH]; intros acc; simpl.
  - apply halts_ret.
  - apply halts_raise.
  - apply IH.
Qed.

Lemma find_pdftoppm_halts {St} (paths : list string) :
  halts (St:=St) (Utils.find_pdftoppm env paths).
Proof.
  induction paths as [|path rest IH]; simpl; [apply halts_ret|].
  unfold Path_exists. repeat first [apply IH | halts_step].
Qed.

Lemma process_pdf_file_halts (pdf_path : string) : halts (process_pdf_file env pdf_path).
Proof.
  unfold process_pdf_file, on_resume_processor.
  apply halts_bind; [apply halts_print|intros _].
  apply halts_bind; [apply halts_print|intros _].
  apply halts_bind.
  - apply halts_zoom.
    unfold Utils.process_pdf, Utils.validate_pdf_path, Utils.on_pdf_processor,
      Utils.extract_text, Utils.convert_to_images, Utils._find_poppler_path,
      Path_exists.
    repeat first [apply concat_pages_halts | apply find_pdftoppm_halts | halts_step].
  - intros [[text images] saved]. repeat halts_step.
Qed.

Lemma report_and_save_halts (content pdf_path : string) :
  halts (report_and_save env content pdf_path).
Proof. unfold report_and_save, save_improved_resume. repeat halts_step. Qed.

Lemma report_error_returns (e : exn) (s : ResumeImprover) :
  ∃ out, report_error e s = (Return tt, s, out) ∧ Forall is_print out.
Proof.
  destruct e; simpl; eexists; (split; [reflexivity|]); by repeat constructor.
Qed.

(** The part of [run] inside the [try]. *)
Lemma run_with_outcome (improve : string → Image → M ResumeImprover (option string))
    (self : ResumeImprover) :
  (∀ e, (run_with improve env self).1.1 ≠ Raise e)
  ∧ ((∀ text img, halts (improve text img)) →
     (run_with improve env self).1.1 = Return tt).
Proof.
  unfold run_with, try_except.
  match goal with |- context [bind ?m ?k self] => set (body := bind m k) end.
  assert ((∀ text img, halts (improve text img)) → halts body) as Hhalts.
  { intros Himprove. unfold body, get_pdf_path, validate_pdf_file.
    apply halts_bind; [repeat halts_step|intros pdf_path].
    apply halts_bind; [repeat halts_step|intros pdf_path'].
    apply halts_bind; [apply process_pdf_file_halts|intros [text images]].
    do 3 (apply halts_bind; [apply halts_print|intros _]).
    apply halts_bind; [destruct images; halts_step|intros img].
    apply halts_bind; [apply Himprove|intros final].
    destruct (has_text final); [apply report_and_save_halts|repeat halts_step]. }
  destruct (body self) as [[[[]|e|] s1] out1] eqn:Hbody; simpl.
  - by split.
  - destruct (report_error_returns e s1) as (out & -> & _). by split.
  - split; [done|]. intros Himprove. specialize (Hhalts Himprove self).
    by rewrite Hbody in Hhalts.
Qed.

(** X16.  The run of the command line interface never lets an exception
    escape: whatever happens inside, missing file, failed extraction, a
    failing backend or a failed export, is reported by printing.  If the
    improvement stage ends, the run ends too, and returns. *)
Theorem run_never_raises (improve : string → Image → M ResumeImprover (option string))
    (self : ResumeImprover) (fuel : nat) :
  (∀ e, (run_with improve env self).1.1 ≠ Raise e)
  ∧ ((∀ text img, halts (improve text img)) →
     (run_with improve env self).1.1 = Return tt)
  ∧ (∀ e, (run env fuel self).1.1 ≠ Raise e).
Proof.
  destruct (run_with_outcome improve self) as [Hraise Hreturn].
  split; [done|]. split; [done|].
  apply (run_with_outcome (improve_resume env fuel) self).
Qed.

(** X17.  Where the path comes from: the first argument of the command
    line as it is, without a prompt; without an argument the typed line,
    with the white space at both ends removed, after the prompt was
    printed, and [EOFError] when the input has ended.  An empty path is
    refused with [ValueError]; the improver is not touched. *)
Theorem get_pdf_path_cases (self : ResumeImprover) :
  (∀ prog arg more, argv env = prog :: arg :: more →
     get_pdf_path env self
     = (if bool_decide (arg = "") then Raise (ValueError "No file path provided")
        else Return arg, self, []))
  ∧ (List.length (argv env) < 2 →
     get_pdf_path env self
     = (match stdin_line env with
        | Some line =>
            if bool_decide (strip line = "")
            then Raise (ValueError "No file path provided")
            else Return (strip line)
        | None => Raise (EOFError "EOF when reading a line")
        end,
        self, [Print "Enter the path to your resume PDF: "]))
  ∧ (∀ pdf_path s out, get_pdf_path env self = (Return pdf_path, s, out) →
       pdf_path ≠ "" ∧ s = self).
Proof.
  unfold get_pdf_path, truthy. run_monad. split; [|split].
  - intros prog arg more ->. simpl. by case_bool_decide.
  - intros Hlen. destruct (argv env) as [|prog [|arg more]]; simpl in *; try lia.
    all: destruct (stdin_line env) as [line|]; simpl; [|done].
    all: by case_bool_decide.
  - intros pdf_path s out.
    destruct (argv env) as [|prog [|arg more]]; simpl;
      try (destruct (stdin_line env) as [line|]; simpl; [|by intros [=]]);
      case_bool_decide; simpl; intros [= <- <- _]; done.
Qed.

(** X18.  A path that fails the first check ends the run at once: the only
    thing printed after the path was obtained is the error line, "File ...
    not found" for a missing file, "Please provide a PDF file" for another
    ending; nothing is extracted, no agent is asked, the improver is
    untouched. *)
Theorem run_reports_invalid_path
    (improve : string → Image → M ResumeImprover (option string))
    (self : ResumeImprover) (given : string) (o0 : list event) :
  get_pdf_path env self = (Return given, self, o0) →
  (path_exists env given = false →
     run_with improve env self
     = (Return tt, self, o0 ++ [Print ("Error: File '" +:+ given +:+ "' not found")]))
  ∧ (path_exists env given = true → endswith (lower given) ".pdf" = false →
     run_with improve env self
     = (Return tt, self, o0 ++ [Print "Error: Please provide a PDF file"])).
Proof.
  intros Hget. unfold run_with, try_except, validate_pdf_file. split.
  - intros Hno. rewrite bind_eq, Hget, bind_eq, Hno. simpl.
    by rewrite ?app_nil_r.
  - intros Hex Hend. rewrite bind_eq, Hget, bind_eq, Hex, Hend. simpl.
    by rewrite ?app_nil_r.
Qed.

(** X19.  After a successful improvement the export is attempted exactly
    once, to the path derived from the input path.  When it fails, the run
    still returns: it reports that the resume was improved but could not be
    saved, with the reason; when it succeeds it prints where the file is. *)
Theorem export_failure_is_reported
    (improve : string → Image → M ResumeImprover (option string))
    (start self s1 : ResumeImprover) (given pdf_path resume_text content : string)
    (resume_image : Image) (rest : list Image) (o0 o1 o2 : list event) :
  get_pdf_path env start = (Return given, start, o0) →
  validate_pdf_file env given start = (Return pdf_path, start, []) →
  process_pdf_file env pdf_path start
  = (Return (resume_text, resume_image :: rest), self, o2) →
  improve resume_text resume_image self = (Return (Some content), s1, o1) →
  content ≠ "" →
  let target := Utils.generate_output_filename pdf_path None in
  let before :=
    o0 ++ o2
    ++ [Print (nl +:+ "Starting resume improvement process...");
        Print "The AI agents will now work together to improve your resume.";
        Print (repeat "-" 60)]
    ++ o1
    ++ [Print (nl +:+ repeat "=" 60); Print "RESUME IMPROVEMENT COMPLETED";
        Print (repeat "=" 60); HtmlToPdf content target] in
  run_with improve env start
  = (Return tt, s1,
     before
     ++ match from_string_error env content target with
        | Some e =>
            [Print (nl +:+ "⚠️  Resume improved but could not save to PDF: "
                    +:+ "Failed to save improved resume: " +:+ exn_msg e);
             Print "HTML content was generated successfully."]
        | None =>
            [Print (nl +:+ "✅ SUCCESS! Your improved resume has been saved as:");
             Print ("   " +:+ target);
             Print (nl +:+ "The improved resume maintains the original format while enhancing:");
             Print "• Content quality and impact";
             Print "• Keyword optimization";
             Print "• Professional language";
             Print "• ATS compatibility"]
        end).
Proof.
  intros Hget Hvalid Hfile Himprove Hcontent target before.
  unfold run_with, try_except.
  rewrite bind_eq, Hget, bind_eq, Hvalid, bind_eq, Hfile. run_monad.
  rewrite Himprove. simpl. unfold truthy. rewrite bool_decide_false by done.
  simpl. unfold report_and_save, save_improved_resume. run_monad. fold target.
  subst before.
  destruct (from_string_error env content target) as [e|];
    do 3 (simpl; rewrite <- ?app_assoc); reflexivity.
Qed.

End CommandLine.

Section EntryPoint.
Import ResumeImprover.

(** X20.  The one exception that escapes [main] is the configuration
    error: without usable settings in the environment the improver cannot be
    built, the error is raised before anything is printed and before [run]
    and its catch-all are entered.  With usable settings [main] never
    raises. *)
Theorem main_raises_only_configuration_errors (env : Env)
    (environ : gmap string string) (fuel : nat) :
  (∀ e, Model._load_config_from_env environ = inl e →
     main env environ fuel = (Raise e, None, []))
  ∧ (∀ c, Model._load_config_from_env environ = inr c →
       ∃ r improver out, main env environ fuel = (r, Some improver, out)
                         ∧ ∀ e, r ≠ Raise e).
Proof.
  unfold main, new_ResumeImproverCLI, new_ResumeImprover, Model.new_ModelManager.
  split.
  - by intros e ->.
  - intros c ->.
    match goal with |- context [run env fuel ?s] => set (cli := s) end.
    destruct (run_with_outcome env (improve_resume env fuel) cli) as [Hraise _].
    fold (run env fuel cli) in Hraise.
    destruct (run env fuel cli) as [[r s] out]. by exists r, s, out.
Qed.

End EntryPoint.

Lemma get_pdf_path_cases_witness :
  ResumeImprover.get_pdf_path (Example.typing_world (Some Example.blanks)) Example.improver
  = (Raise (ValueError "No file path provided"), Example.improver,
     [Print "Enter the path to your resume PDF: "])
  ∧ ResumeImprover.get_pdf_path (Example.typing_world None) Example.improver
    = (Raise (EOFError "EOF when reading a line"), Example.improver,
       [Print "Enter the path to your resume PDF: "]).
Proof.
  split.
  - rewrite (proj1 (proj2 (get_pdf_path_cases (Example.typing_world (Some Example.blanks))
                             Example.improver))) by (vm_compute; lia).
    by vm_compute.
  - rewrite (proj1 (proj2 (get_pdf_path_cases (Example.typing_world None)
                             Example.improver))) by (vm_compute; lia).
    by vm_compute.
Defined.

Lemma run_reports_invalid_path_witness :
  ResumeImprover.run (Example.world_of ["resumeimprover.py"; "cv/missing.pdf"]) 10
    Example.improver
  = (Return tt, Example.improver, [Print "Error: File 'cv/missing.pdf' not found"]).
Proof.
  apply (run_reports_invalid_path
           (Example.world_of ["resumeimprover.py"; "cv/missing.pdf"])
           (ResumeImprover.improve_resume
              (Example.world_of ["resumeimprover.py"; "cv/missing.pdf"]) 10)
           Example.improver "cv/missing.pdf" []).
  - by vm_compute.
  - by vm_compute.
Defined.

Lemma export_failure_is_reported_witness :
  ∃ s1 out,
    ResumeImprover.run Example.readonly_world 10 Example.improver = (Return tt, s1, out)
    ∧ last out = Some (Print "HTML content was generated successfully.").
Proof.
  pose (loaded := ResumeImprover.process_pdf_file Example.readonly_world "cv/resume.PDF"
                    Example.improver).
  destruct (ResumeImprover.improve_resume Example.readonly_world 10
              "Experience: built tools." Example.page1 loaded.1.2)
    as [[r s1] o1] eqn:Himprove.
  pose proof (f_equal (λ x : _ * _ * _, x.1.1) Himprove) as Hr.
  vm_compute in Hr. subst r.
  pose proof (export_failure_is_reported Example.readonly_world
                (ResumeImprover.improve_resume Example.readonly_world 10)
                Example.improver loaded.1.2 s1 "cv/resume.PDF" "cv/resume.PDF"
                "Experience: built tools." "<html>Experience: built tools.</html>"
                Example.page1 [Example.page2] [] o1 loaded.2) as Hrun.
  exists s1. eexists. split.
  - unfold ResumeImprover.run. apply Hrun.
    + by vm_compute.
    + by vm_compute.
    + by vm_compute.
    + exact Himprove.
    + done.
  - rewrite last_app. reflexivity.
Defined.

Section StageOrder.
Import PyStr AutoGen ResumeImprover Observe.
Context (env : Env).

(** One request to the backend per message of the thread, in order. *)
Lemma rounds_events (t : RoundRobinGroupChat) (fuel turn : nat)
    (thread thread' : list Message) (r : outcome unit) (out : list event) :
  rounds env t fuel turn thread = (r, thread', out) →
  ∃ replies, thread' = thread ++ replies
             ∧ match r with
               | Raise _ => True
               | _ => out = map (λ m, Inference (source m)) replies
               end.
Proof.
  revert turn thread thread' r out.
  induction fuel as [|fuel IH]; intros turn thread thread' r out; simpl.
  - intros [= <- <- <-]. exists []. by rewrite app_nil_r.
  - destruct (participants t !! _) as [a|].
    2: { intros [= <- <- <-]. exists []. by rewrite app_nil_r. }
    run_monad. destruct (model_reply env a thread) as [e|answer]; simpl.
    { intros [= <- <- <-]. exists []. by rewrite app_nil_r. }
    destruct (terminated t _).
    + intros [= <- <- <-]. by exists [TextMessage (agent_name a) answer].
    + destruct (rounds env t fuel (S turn) _) as [[r' th] o] eqn:Hrest.
      intros [= <- <- <-].
      destruct (IH _ _ _ _ _ Hrest) as (replies & -> & Hout).
      exists (TextMessage (agent_name a) answer :: replies).
      split; [by rewrite <- app_assoc|].
      destruct r'; [|done|]; by rewrite Hout.
Qed.

(** What the text stage leaves behind when it returns: only requests of the
    three text agents, the last one answered by the conciseness agent. *)
Lemma improve_resume_text_trace (self s1 : ResumeImprover) (fuel : nat)
    (resume_text : string) (r : option string) (o1 : list event) :
  improver_ok self →
  improve_resume_text env fuel resume_text self = (Return r, s1, o1) →
  improver_ok s1
  ∧ Forall is_text_inference o1
  ∧ last o1 = Some (Inference "ResumeConcisenessAgent").
Proof.
  intros Hok.
  destruct (on_prompt_manager (Utils.load_prompt env "resume_team_task_prompt") self)
    as [[rp sp] op] eqn:Hprompt.
  assert (op = []) as ->.
  { revert Hprompt. unfold on_prompt_manager, zoom.
    destruct (load_prompt_silent env "resume_team_task_prompt" (prompt_manager self))
      as (r' & pm' & -> & _). by intros [= _ _ <-]. }
  destruct rp as [task_prompt|e|].
  2,3: unfold improve_resume_text, improve_resume_text_with; by rewrite bind_eq, Hprompt.
  assert (improver_ok sp) as Hokp.
  { eapply improver_ok_team; [|exact Hok]. eapply on_prompt_manager_team, Hprompt. }
  destruct (create_team_run env sp Hokp) as (r0 & s0 & Hteam & Hok0 & _ & Ht).
  destruct r0 as [t|e|].
  2,3: unfold improve_resume_text, improve_resume_text_with; by rewrite bind_eq, Hprompt, bind_eq, Hteam.
  destruct (Ht t eq_refl) as [Htext _].
  rewrite (improve_resume_text_run env self sp s0 fuel resume_text task_prompt t [] []
             Hprompt Hteam).
  destruct (group_chat_run env t fuel (team_task task_prompt resume_text) Htext)
    as (r' & replies & out' & Hchat & _ & Hout & Hend).
  rewrite Hchat. destruct r' as [[]|e|]; [|done..].
  intros [= <- <- <-]. split; [done|]. split; [done|]. simpl.
  revert Hchat. unfold group_chat. rewrite bind_eq. simpl.
  destruct (terminated t (user_message _)) eqn:Hstart.
  { apply (text_team_terminated t) in Hstart as [[=] _]; done. }
  destruct (rounds env t fuel 0 _) as [[rr th] oo] eqn:Hrounds. simpl.
  intros [= -> -> ->]. apply rounds_events in Hrounds as (replies' & Heq & ->).
  assert (replies' = replies) as -> by (by injection Heq).
  destruct Hend as (earlier & final & -> & [Hsrc _] & _).
  rewrite map_app. simpl. rewrite last_snoc. by rewrite Hsrc.
Qed.

(** X21.  The order of the stages: when [improve_resume] returns, it has
    asked only the three text agents first, the last of them the
    conciseness agent, whose message ended the text stage, and then the
    image agent, exactly once and last; what it returns is the answer of the
    image agent. *)
Theorem improve_resume_stage_order (self s' : ResumeImprover) (fuel : nat)
    (resume_text : string) (resume_image : Image) (r : option string)
    (out : list event) :
  improver_ok self →
  improve_resume env fuel resume_text resume_image self = (Return r, s', out) →
  ∃ text_stage answer,
    r = Some answer
    ∧ out = [Print "Step 1: Improving resume text content..."]
            ++ text_stage
            ++ [Print "✓ Resume text improved successfully";
                Print "Step 2: Generating improved resume file...";
                Inference "ResumeImageAgent";
                Print (if truthy answer
                       then "✓ Resume image generated successfully"
                       else "❌ Failed to generate resume image")]
    ∧ Forall is_text_inference text_stage
    ∧ last text_stage = Some (Inference "ResumeConcisenessAgent")
    ∧ improver_ok s'.
Proof.
  intros Hok. unfold improve_resume, improve_resume_with. run_monad.
  destruct (improve_resume_text env fuel resume_text self) as [[rt s1] o1] eqn:Htext.
  destruct rt as [improved|e|]; [|done..].
  rewrite (improve_resume_text_has_text env self s1 fuel resume_text improved o1 Hok Htext).
  destruct (improve_resume_text_trace self s1 fuel resume_text improved o1 Hok Htext)
    as (Hok1 & Htrace & Hlast).
  simpl. unfold generate_resume_image, agent_run_stream. run_monad.
  destruct (get_image_agent_run env s1 Hok1) as (ra & s2 & -> & Hok2 & _ & Hname).
  destruct ra as [agent|e|]; [|done..].
  rewrite (Hname agent eq_refl).
  destruct (model_reply env agent _) as [e|answer]; [done|]. simpl.
  destruct (truthy answer) eqn:Hanswer; simpl;
    intros [= <- <- <-]; exists o1, answer; rewrite Hanswer;
    (split; [done|]); (split; [by rewrite <- ?app_assoc|]); done.
Qed.

End StageOrder.

Lemma improve_resume_stage_order_witness :
  ∃ text_stage answer,
    (ResumeImprover.improve_resume Example.world 10 "Experience: built tools."
       Example.page1 Example.improver).1.1 = Return (Some answer)
    ∧ Forall Observe.is_text_inference text_stage
    ∧ last text_stage = Some (Inference "ResumeConcisenessAgent").
Proof.
  assert (Observe.improver_ok Example.improver) as Hok by (by vm_compute).
  destruct (ResumeImprover.improve_resume Example.world 10 "Experience: built tools."
              Example.page1 Example.improver) as [[r s] out] eqn:Hrun.
  pose proof (f_equal (λ x : _ * _ * _, x.1.1) Hrun) as Hr.
  vm_compute in Hr. subst r.
  destruct (improve_resume_stage_order Example.world Example.improver s 10
              "Experience: built tools." Example.page1
              (Some "<html>Experience: built tools.</html>") out Hok Hrun)
    as (ts & answer & Hr & _ & Hall & Hlast & _).
  injection Hr as <-. exists ts. eexists.
  split; [reflexivity|]. split; [exact Hall|exact Hlast].
Defined.
